(** * caro/main.cpp: bulk renaming of NUMBER.EXTENSION files

    A shallow embedding of [src/caro/main.cpp].  The program reads two
    integers [a] (offset) and [b] (minimum) from standard input, scans
    the current directory for regular files named NUMBER.EXTENSION,
    sorts them by number (descending when [a >= 0], ascending
    otherwise) and renames each one to (NUMBER + a).EXTENSION unless a
    skip rule applies.

    The C++ library calls are modelled by their documented behaviour:
    [std::regex_match], [std::stoi], [std::to_string], [operator>>] on
    [std::cin], [std::sort] (through its contract), the directory
    iterator and [fs::rename] (POSIX semantics: an existing
    non-directory target is replaced). *)

From Stdlib Require Import ZArith List Bool Lia Ascii String.
From Stdlib Require Import Decimal DecimalFacts DecimalN DecimalZ DecimalString.
From Stdlib Require Import Permutation Sorted.
Import ListNotations.

Local Open Scope string_scope.
Local Open Scope Z_scope.

(** ** Native [int] *)

Definition INT_MAX : Z := 2147483647.
Definition INT_MIN : Z := -2147483648.

Definition in_int (z : Z) : Prop := INT_MIN <= z <= INT_MAX.

Definition in_intb (z : Z) : bool := (INT_MIN <=? z) && (z <=? INT_MAX).

(** Two's complement reduction of a mathematical integer to 32 bits.
    C++ leaves the overflow of [int] undefined; the model takes what
    [old_number + a] evaluates to on the usual two's complement
    targets when the sum leaves the range of [int]. *)
Definition wrap_int (z : Z) : Z := (z - INT_MIN) mod 2 ^ 32 + INT_MIN.

Definition int_add (x y : Z) : Z := wrap_int (x + y).

(** ** Characters and strings *)

Definition is_digit (c : ascii) : bool :=
  ((48 <=? nat_of_ascii c) && (nat_of_ascii c <=? 57))%nat.

(** [.] of an ECMAScript regex matches every character but the line
    terminators. *)
Definition is_line_terminator (c : ascii) : bool :=
  Ascii.eqb c "010" || Ascii.eqb c "013".

Fixpoint string_forallb (p : ascii -> bool) (s : string) : bool :=
  match s with
  | EmptyString => true
  | String c t => p c && string_forallb p t
  end.

(** Longest prefix of [s] made of digits, and the rest. *)
Fixpoint span_digits (s : string) : string * string :=
  match s with
  | EmptyString => (EmptyString, EmptyString)
  | String c t =>
      if is_digit c
      then let (d, r) := span_digits t in (String c d, r)
      else (EmptyString, s)
  end.

Definition any_char (c : ascii) : bool := negb (is_line_terminator c).

(** [std::regex_match(filename, matches, "^(\\d+)\\.(.+)$")]: the two
    capture groups on success.  The digit group cannot contain the
    dot, so it is the whole leading digit run. *)
Definition regex_match (filename : string) : option (string * string) :=
  match span_digits filename with
  | (String d ds, String "." (String e es)) =>
      if string_forallb any_char (String e es)
      then Some (String d ds, String e es)
      else None
  | _ => None
  end.

(** The pattern itself.  The syntax of the regular expressions the
    pattern is written with, and the pattern ["^(\\d+)\\.(.+)$"] of the
    source, token by token. *)
Inductive regex : Type :=
| re_bol
| re_eol
| re_digit
| re_any
| re_char (c : ascii)
| re_plus (r : regex)
| re_group (r : regex)
| re_seq (r1 r2 : regex).

Definition filename_regex : regex :=
  re_seq re_bol
    (re_seq (re_group (re_plus re_digit))
       (re_seq (re_char ".")
          (re_seq (re_group (re_plus re_any)) re_eol))).

(** ECMAScript matching: [re_match r before s after caps] says that
    [r] matches the piece [s] of the subject [before ++ s ++ after]
    and captures [caps], one string for each group in the order of
    the opening parentheses.  [^] and [$] match the empty piece at
    the two ends, [\d] a character from 0 to 9 (codes 48 to 57), [.]
    a character other than a line feed (10) or a carriage return
    (13). *)
Inductive re_match : regex -> string -> string -> string -> list string -> Prop :=
| match_bol after : re_match re_bol "" "" after []
| match_eol before : re_match re_eol before "" "" []
| match_digit before c after :
    (48 <= nat_of_ascii c <= 57)%nat ->
    re_match re_digit before (String c "") after []
| match_any before c after :
    nat_of_ascii c <> 10%nat -> nat_of_ascii c <> 13%nat ->
    re_match re_any before (String c "") after []
| match_char before c after :
    re_match (re_char c) before (String c "") after []
| match_plus_last r before s after caps :
    re_match r before s after caps ->
    re_match (re_plus r) before s after caps
| match_plus_more r before s1 s2 after caps1 caps2 :
    re_match r before s1 (s2 ++ after) caps1 ->
    re_match (re_plus r) (before ++ s1) s2 after caps2 ->
    re_match (re_plus r) before (s1 ++ s2) after caps2
| match_group r before s after caps :
    re_match r before s after caps ->
    re_match (re_group r) before s after (s :: caps)
| match_seq r1 r2 before s1 s2 after caps1 caps2 :
    re_match r1 before s1 (s2 ++ after) caps1 ->
    re_match r2 (before ++ s1) s2 after caps2 ->
    re_match (re_seq r1 r2) before (s1 ++ s2) after (caps1 ++ caps2)%list.

(** ** [std::stoi] and [std::to_string] *)

Inductive stoi_result : Type :=
| stoi_ok (n : Z)
| stoi_invalid_argument
| stoi_out_of_range.

(** [std::stoi] on a digit run (the only input the first capture
    group can deliver): decimal value, [out_of_range] above
    [INT_MAX]; a string with no leading digit is [invalid_argument]. *)
Definition stoi (s : string) : stoi_result :=
  match s with
  | EmptyString => stoi_invalid_argument
  | String _ _ =>
      match NilEmpty.uint_of_string s with
      | None => stoi_invalid_argument
      | Some u =>
          let v := Z.of_N (N.of_uint u) in
          if v <=? INT_MAX then stoi_ok v else stoi_out_of_range
      end
  end.

(** [std::to_string(int)]: decimal rendering, with a minus sign for
    negative values. *)
Definition to_string (n : Z) : string :=
  NilEmpty.string_of_int (Z.to_int n).

(** ** Files *)

(** A [fs::path] inside the scanned directory: the directory it lives
    in and its last component. *)
Record path : Type := {
  parent_path : string;
  filename : string
}.

Definition path_append (dir : string) (name : string) : path :=
  {| parent_path := dir; filename := name |}.

Record FileInfo : Type := {
  number : Z;
  original_path : path;
  extension : string
}.

Definition compareFilesDesc (a b : FileInfo) : bool :=
  number b <? number a.

Definition compareFilesAsc (a b : FileInfo) : bool :=
  number a <? number b.

(** [std::sort] requires its comparator to be a strict weak ordering. *)
Record strict_weak_order {A : Type} (cmp : A -> A -> bool) : Prop := {
  swo_irrefl : forall x, cmp x x = false;
  swo_trans : forall x y z, cmp x y = true -> cmp y z = true -> cmp x z = true;
  swo_incomp : forall x y z,
      cmp x y = false -> cmp y x = false ->
      cmp y z = false -> cmp z y = false ->
      cmp x z = false /\ cmp z x = false
}.

(** [std::sort] is known by its contract only: the result is a
    permutation of the input in which no element compares less than an
    earlier one.  The order of equivalent elements is unspecified. *)
Record sorter : Type := {
  std_sort : (FileInfo -> FileInfo -> bool) -> list FileInfo -> list FileInfo;
  std_sort_perm : forall cmp l,
      strict_weak_order cmp -> Permutation l (std_sort cmp l);
  std_sort_sorted : forall cmp l,
      strict_weak_order cmp ->
      StronglySorted (fun x y => cmp y x = false) (std_sort cmp l)
}.

(** One implementation of the contract, used to run the model. *)
Fixpoint insert_by (cmp : FileInfo -> FileInfo -> bool) (x : FileInfo)
  (l : list FileInfo) : list FileInfo :=
  match l with
  | [] => [x]
  | y :: t => if cmp x y then x :: y :: t else y :: insert_by cmp x t
  end.

Fixpoint insertion_sort (cmp : FileInfo -> FileInfo -> bool)
  (l : list FileInfo) : list FileInfo :=
  match l with
  | [] => []
  | x :: t => insert_by cmp x (insertion_sort cmp t)
  end.

(** ** The directory *)

Inductive file_type : Type := regular | directory | other.

(** What a directory entry leads to: its type as [is_regular_file]
    sees it, its contents, and the identity of the file (its device
    and inode number): two entries with the same identity are hard
    links to one file. *)
Record node : Type := {
  ftype : file_type;
  contents : string;
  file_id : string
}.

(** The entries of the current directory, in the order in which the
    directory iterator yields them. *)
Definition dirmap : Type := list (string * node).

Record world : Type := {
  current_path : string;
  entries : dirmap;
  (** [Some k]: enumerating the directory throws a [filesystem_error]
      after [k] entries have been delivered. *)
  scan_fault : option nat;
  (** The renames the operating system refuses (permissions, locks). *)
  rename_denied : string -> string -> bool
}.

Fixpoint lookup (name : string) (d : dirmap) : option node :=
  match d with
  | [] => None
  | (k, n) :: t => if String.eqb k name then Some n else lookup name t
  end.

Definition unlink (name : string) (d : dirmap) : dirmap :=
  filter (fun e => negb (String.eqb (fst e) name)) d.

Definition relabel (old new : string) (d : dirmap) : dirmap :=
  map (fun e => if String.eqb (fst e) old then (new, snd e) else e) d.

Definition is_directory (n : node) : bool :=
  match ftype n with directory => true | _ => false end.

Definition is_regular_file (n : node) : bool :=
  match ftype n with regular => true | _ => false end.

(** [fs::equivalent]: both entries lead to the same file. *)
Definition same_file (n m : node) : bool :=
  String.eqb (file_id n) (file_id m).

(** [fs::rename(old_p, new_p)] inside the current directory; [None]
    is a thrown [filesystem_error].  When both names lead to the same
    file the call succeeds and does nothing.  Otherwise an existing
    target that is not a directory is replaced.  Directory contents
    are not part of the model, so a rename onto an existing entry
    fails as soon as one side is a directory; paths outside the
    current directory are not part of the model either. *)
Definition fs_rename (w : world) (d : dirmap) (old_p new_p : path)
  : option dirmap :=
  if negb (String.eqb (parent_path old_p) (current_path w)
           && String.eqb (parent_path new_p) (current_path w))
  then None
  else
    let old := filename old_p in
    let new := filename new_p in
    match lookup old d with
    | None => None
    | Some n =>
        if rename_denied w old new then None
        else if String.eqb old new then Some d
        else
          match lookup new d with
          | None => Some (relabel old new d)
          | Some m =>
              if same_file n m then Some d
              else if is_directory n || is_directory m then None
              else Some (relabel old new (unlink new d))
          end
    end.

(** [fs::directory_iterator(current_dir)]: the entries delivered, and
    whether the iteration threw. *)
Definition directory_iterator (w : world) : dirmap * bool :=
  match scan_fault w with
  | None => (entries w, false)
  | Some k => (firstn k (entries w), true)
  end.

(** ** Standard input *)

Definition is_space (c : ascii) : bool :=
  let n := nat_of_ascii c in
  (Nat.eqb n 32 || ((9 <=? n) && (n <=? 13)))%nat.

Fixpoint skip_ws (s : string) : string :=
  match s with
  | String c t => if is_space c then skip_ws t else s
  | EmptyString => EmptyString
  end.

(** [std::cin >> x] for [int x]: leading white space is skipped, then
    an optional sign and a digit run are read.  [None] is the fail
    state: no digit, or a value outside of [int]. *)
Definition istream_int (input : string) : option Z * string :=
  let s := skip_ws input in
  let '(neg, s') :=
    match s with
    | String "-" t => (true, t)
    | String "+" t => (false, t)
    | _ => (false, s)
    end in
  let (ds, rest) := span_digits s' in
  match ds, NilEmpty.uint_of_string ds with
  | String _ _, Some u =>
      let v := Z.of_N (N.of_uint u) in
      let v' := if neg then - v else v in
      if in_intb v' then (Some v', rest) else (None, rest)
  | _, _ => (None, rest)
  end.

(** ** Output *)

Inductive ostream : Type := cout | cerr.

(** The lines the program prints after its banner and prompts. *)
Inductive message : Type :=
| invalid_input_a
| invalid_input_b
| searching (dir : string)
| warn_not_converted (name : string)
| warn_out_of_range (name : string)
| error_accessing_directory
| no_files_found
| sorting_descending
| sorting_ascending
| skip_below_b (name : string) (old_number b : Z)
| skip_negative (name : string) (new_number : Z)
| skip_identical (name : string)
| renamed (old new : string)
| error_renaming (old new : string)
| complete.

Definition stream_of (m : message) : ostream :=
  match m with
  | invalid_input_a | invalid_input_b
  | warn_not_converted _ | warn_out_of_range _
  | error_accessing_directory | error_renaming _ _ => cerr
  | _ => cout
  end.

(** ** The scan *)

(** Body of the directory loop for one entry: the vector
    [files_to_rename] after the entry, and the warnings printed. *)
Definition scan_entry (cwd : string) (e : string * node)
  : list FileInfo * list message :=
  let (name, n) := e in
  if is_regular_file n then
    match regex_match name with
    | Some (digits, ext) =>
        match stoi digits with
        | stoi_ok v =>
            ([{| number := v;
                 original_path := path_append cwd name;
                 extension := ext |}], [])
        | stoi_invalid_argument => ([], [warn_not_converted name])
        | stoi_out_of_range => ([], [warn_out_of_range name])
        end
    | None => ([], [])
    end
  else ([], []).

Fixpoint scan (cwd : string) (es : dirmap) : list FileInfo * list message :=
  match es with
  | [] => ([], [])
  | e :: rest =>
      let (f1, m1) := scan_entry cwd e in
      let (f2, m2) := scan cwd rest in
      ((f1 ++ f2)%list, (m1 ++ m2)%list)
  end.

(** ** The rename pass *)

(** What the loop body decides for one file, in the order of its
    tests. *)
Inductive action : Type :=
| do_skip_below_b
| do_skip_negative (new_number : Z)
| do_skip_identical
| do_rename (new_filename_str : string).

Definition decide (a b : Z) (file_info : FileInfo) : action :=
  let old_number := number file_info in
  let new_number := int_add old_number a in
  let original_filename_str := filename (original_path file_info) in
  if old_number <? b then do_skip_below_b
  else if new_number <? 0 then do_skip_negative new_number
  else
    let new_filename_str :=
      to_string new_number ++ "." ++ extension file_info in
    if String.eqb original_filename_str new_filename_str
    then do_skip_identical
    else do_rename new_filename_str.

(** One iteration of the rename loop: the directory afterwards and
    the line printed. *)
Definition rename_file (w : world) (a b : Z) (d : dirmap)
  (file_info : FileInfo) : dirmap * message :=
  let original_filename_str := filename (original_path file_info) in
  match decide a b file_info with
  | do_skip_below_b =>
      (d, skip_below_b original_filename_str (number file_info) b)
  | do_skip_negative new_number =>
      (d, skip_negative original_filename_str new_number)
  | do_skip_identical => (d, skip_identical original_filename_str)
  | do_rename new_filename_str =>
      let new_path :=
        path_append (parent_path (original_path file_info))
                    new_filename_str in
      match fs_rename w d (original_path file_info) new_path with
      | Some d' => (d', renamed original_filename_str new_filename_str)
      | None => (d, error_renaming original_filename_str new_filename_str)
      end
  end.

Fixpoint rename_pass (w : world) (a b : Z) (d : dirmap)
  (files : list FileInfo) : dirmap * list message :=
  match files with
  | [] => (d, [])
  | file_info :: rest =>
      let (d1, m) := rename_file w a b d file_info in
      let (d2, ms) := rename_pass w a b d1 rest in
      (d2, m :: ms)
  end.

(** ** The program *)

Record outcome : Type := {
  exit_code : Z;
  output : list message;
  final : dirmap
}.

Definition sort_files (S : sorter) (a : Z) (files : list FileInfo)
  : list FileInfo :=
  if 0 <=? a then std_sort S compareFilesDesc files
  else std_sort S compareFilesAsc files.

(** [main] once [a] and [b] have been read. *)
Definition run (S : sorter) (a b : Z) (w : world) : outcome :=
  let (es, threw) := directory_iterator w in
  let (files_to_rename, warnings) := scan (current_path w) es in
  let head := searching (current_path w) :: warnings in
  if threw then
    {| exit_code := 1;
       output := (head ++ [error_accessing_directory])%list;
       final := entries w |}
  else
    match files_to_rename with
    | [] =>
        {| exit_code := 0;
           output := (head ++ [no_files_found])%list;
           final := entries w |}
    | _ :: _ =>
        let sorted := sort_files S a files_to_rename in
        let note := if 0 <=? a then sorting_descending
                    else sorting_ascending in
        let (d, log) := rename_pass w a b (entries w) sorted in
        {| exit_code := 0;
           output := (head ++ note :: log ++ [complete])%list;
           final := d |}
    end.

Definition main (S : sorter) (stdin : string) (w : world) : outcome :=
  match istream_int stdin with
  | (None, _) =>
      {| exit_code := 1; output := [invalid_input_a]; final := entries w |}
  | (Some a, stdin') =>
      match istream_int stdin' with
      | (None, _) =>
          {| exit_code := 1; output := [invalid_input_b];
             final := entries w |}
      | (Some b, _) => run S a b w
      end
  end.

(** How the process ends: [main] returns, or an exception that no
    handler catches reaches [std::terminate], which aborts. *)
Inductive termination : Type :=
| exited (o : outcome)
| terminated.

(** The whole of [main], with the call of [fs::current_path()]: it
    stands after the two reads and outside every [try], so when it
    throws ([cwd_throws]) the process is aborted, before the scan.
    [main] and [run] describe the program once the call has returned
    the directory of [w]. *)
Definition program (S : sorter) (stdin : string) (cwd_throws : bool)
  (w : world) : termination :=
  match istream_int stdin with
  | (None, _) =>
      exited {| exit_code := 1; output := [invalid_input_a];
                final := entries w |}
  | (Some a, stdin') =>
      match istream_int stdin' with
      | (None, _) =>
          exited {| exit_code := 1; output := [invalid_input_b];
                    final := entries w |}
      | (Some b, _) =>
          if cwd_throws then terminated else exited (run S a b w)
      end
  end.

(** ** Vocabulary of the statements *)

Definition digit_string (s : string) : Prop :=
  s <> EmptyString /\ string_forallb is_digit s = true.

(** A digit run written the way [to_string] writes it: no zero in
    front of another digit. *)
Definition no_leading_zero (s : string) : bool :=
  match s with
  | String "0" (String _ _) => false
  | _ => true
  end.

(** The digit run of a name is written without leading zeros. *)
Definition canonical_name (name : string) : bool :=
  match regex_match name with
  | Some (digits, _) => no_leading_zero digits
  | None => true
  end.

(** The number in front of a name the scan accepts. *)
Definition number_of_name (name : string) : option Z :=
  match regex_match name with
  | Some (digits, _) =>
      match stoi digits with
      | stoi_ok n => Some n
      | _ => None
      end
  | None => None
  end.

(** [fi] describes a regular file of [es] whose name fits the pattern
    and whose digit run fits in an [int]. *)
Definition matched (cwd : string) (es : dirmap) (fi : FileInfo) : Prop :=
  exists nd digits,
    In (filename (original_path fi), nd) es /\
    is_regular_file nd = true /\
    regex_match (filename (original_path fi)) = Some (digits, extension fi) /\
    stoi digits = stoi_ok (number fi) /\
    parent_path (original_path fi) = cwd.

Definition files_of (w : world) : list FileInfo :=
  fst (scan (current_path w) (entries w)).

(** The name the loop body builds for a file. *)
Definition new_name (a : Z) (fi : FileInfo) : string :=
  to_string (int_add (number fi) a) ++ "." ++ extension fi.

(** [m] is a line the loop body can print for [fi]. *)
Definition reports (a b : Z) (fi : FileInfo) (m : message) : Prop :=
  let name := filename (original_path fi) in
  match decide a b fi with
  | do_skip_below_b => m = skip_below_b name (number fi) b
  | do_skip_negative k => m = skip_negative name k
  | do_skip_identical => m = skip_identical name
  | do_rename new => m = renamed name new \/ m = error_renaming name new
  end.

(** [m] reports a call of [fs::rename] from [old] to [new]. *)
Definition rename_call (m : message) (old new : string) : Prop :=
  m = renamed old new \/ m = error_renaming old new.

(** A line that does not report a call of [fs::rename]. *)
Definition quiet (m : message) : Prop :=
  forall old new, ~ rename_call m old new.

(** The rename pass of a run that reaches it. *)
Definition pass_of (S : sorter) (a b : Z) (w : world) : dirmap * list message :=
  rename_pass w a b (entries w) (sort_files S a (files_of w)).

(** Source of a call of [fs::rename], and of a successful one. *)
Definition called (m : message) : option string :=
  match m with
  | renamed old _ | error_renaming old _ => Some old
  | _ => None
  end.

Definition performed (m : message) : option string :=
  match m with
  | renamed old _ => Some old
  | _ => None
  end.

(** Original numbers of the files selected by [sel], in the order of
    the output. *)
Definition numbers_in (sel : message -> option string) (out : list message)
  : list Z :=
  flat_map (fun m =>
              match sel m with
              | Some old =>
                  match number_of_name old with
                  | Some k => [k]
                  | None => []
                  end
              | None => []
              end) out.

Definition called_numbers : list message -> list Z := numbers_in called.
Definition renamed_numbers : list message -> list Z := numbers_in performed.

Definition selects_calls (sel : message -> option string) : Prop :=
  forall m old, sel m = Some old -> exists new, rename_call m old new.

(** Both the calls of [fs::rename] and the successful ones follow [R]. *)
Definition ordered (R : Z -> Z -> Prop) (out : list message) : Prop :=
  StronglySorted R (called_numbers out) /\
  StronglySorted R (renamed_numbers out).

(** The world after a run, for a second run. *)
Definition with_entries (w : world) (d : dirmap) : world :=
  {| current_path := current_path w;
     entries := d;
     scan_fault := scan_fault w;
     rename_denied := rename_denied w |}.

(** A directory seen through its names. *)
Definition view : Type := string -> option node.

Definition view_of (d : dirmap) : view := fun name => lookup name d.

(** What a successful [rename] from [old] to [new] does to a
    directory: nothing when both names lead to the same file;
    otherwise the entry of [old] stands at [new], whatever stood
    there is gone, [old] is absent and every other name is as it
    was. *)
Definition move (old new : string) (f : view) : view :=
  fun name =>
    let moved :=
      if String.eqb name new then f old
      else if String.eqb name old then None
      else f name in
    match f old, f new with
    | Some n, Some m => if same_file n m then f name else moved
    | _, _ => moved
    end.

Fixpoint replay (renames : list (string * string)) (f : view) : view :=
  match renames with
  | [] => f
  | (old, new) :: rest => replay rest (move old new f)
  end.

(** The successful renames a run reports, in order. *)
Definition renames_of (out : list message) : list (string * string) :=
  flat_map (fun m =>
              match m with
              | renamed old new => [(old, new)]
              | _ => []
              end) out.

(** The scan adds a file for this entry. *)
Definition accepted (e : string * node) : bool :=
  is_regular_file (snd e) &&
  match number_of_name (fst e) with
  | Some _ => true
  | None => false
  end.

(** The entry after a run that renames every file of the scan. *)
Definition shift_entry (cwd : string) (a : Z) (e : string * node)
  : string * node :=
  match fst (scan_entry cwd e) with
  | fi :: _ => (new_name a fi, snd e)
  | [] => e
  end.

(** The entry once the files named in [done] have been renamed. *)
Definition shift_done (cwd : string) (a : Z) (done : list string)
  (e : string * node) : string * node :=
  if existsb (String.eqb (fst e)) done then shift_entry cwd a e else e.

Definition name_of (fi : FileInfo) : string := filename (original_path fi).


(** ** Sample directories *)

(** A regular file of its own.  The sample directories give every
    file contents of its own, which also serve as its identity. *)
Definition plain (c : string) : node :=
  {| ftype := regular; contents := c; file_id := c |}.

Definition folder : node :=
  {| ftype := directory; contents := ""; file_id := "" |}.

(** Another name of the file with identity [id]. *)
Definition link (c id : string) : node :=
  {| ftype := regular; contents := c; file_id := id |}.

(** A directory that can be read, where no rename is refused. *)
Definition sample_world (es : dirmap) : world :=
  {| current_path := "/work";
     entries := es;
     scan_fault := None;
     rename_denied := fun _ _ => false |}.

Definition scenario_A : world :=
  sample_world [("5.txt", plain "five"); ("7.txt", plain "seven")].

Definition scenario_C : world :=
  sample_world [("2.txt", plain "two"); ("5.txt", plain "five");
                ("9.txt", plain "nine")].

(** Two files with the same number. *)
Definition tie_world : world :=
  sample_world [("5.txt", plain "text"); ("5.jpg", plain "image")].

(** A digit run with leading zeros. *)
Definition padded_world : world :=
  sample_world [("007.txt", plain "bond")].

(** A downward shift whose target is a file that stays. *)
Definition clobber_world : world :=
  sample_world [("2.txt", plain "two"); ("5.txt", plain "five")].

(** A digit run that does not fit in an [int]. *)
Definition overflow_world : world :=
  sample_world [("99999999999.txt", plain "big"); ("5.txt", plain "five")].

(** The target [6.txt] of the first rename is a directory. *)
Definition blocked_world : world :=
  sample_world [("3.txt", plain "three"); ("5.txt", plain "five");
                ("6.txt", folder)].

Definition bare_five : FileInfo :=
  {| number := 5; original_path := path_append "/work" "5.txt";
     extension := "txt" |}.

Definition padded_five : FileInfo :=
  {| number := 5; original_path := path_append "/work" "05.txt";
     extension := "txt" |}.

(** * Properties *)

(** ** The comparators and the reference sort *)

Lemma compareFilesDesc_swo : strict_weak_order compareFilesDesc.
Proof.
  unfold compareFilesDesc; split; intros *.
  - apply Z.ltb_irrefl.
  - rewrite !Z.ltb_lt; lia.
  - rewrite !Z.ltb_ge; lia.
Qed.

Lemma compareFilesAsc_swo : strict_weak_order compareFilesAsc.
Proof.
  unfold compareFilesAsc; split; intros *.
  - apply Z.ltb_irrefl.
  - rewrite !Z.ltb_lt; lia.
  - rewrite !Z.ltb_ge; lia.
Qed.

Lemma swo_asym {A : Type} (cmp : A -> A -> bool) :
  strict_weak_order cmp ->
  forall x y, cmp x y = true -> cmp y x = false.
Proof.
  intros H x y Hxy.
  destruct (cmp y x) eqn:Hyx; [|reflexivity].
  pose proof (swo_trans _ H _ _ _ Hxy Hyx) as Hxx.
  rewrite (swo_irrefl _ H) in Hxx; discriminate.
Qed.

Lemma insert_by_perm cmp x l : Permutation (x :: l) (insert_by cmp x l).
Proof.
  induction l as [|y t IH]; simpl.
  - reflexivity.
  - destruct (cmp x y).
    + reflexivity.
    + rewrite perm_swap. now apply perm_skip.
Qed.

Lemma insertion_sort_perm cmp l : Permutation l (insertion_sort cmp l).
Proof.
  induction l as [|x t IH]; simpl.
  - constructor.
  - rewrite <- insert_by_perm. now apply perm_skip.
Qed.

Lemma insert_by_sorted cmp x l :
  strict_weak_order cmp ->
  StronglySorted (fun u v => cmp v u = false) l ->
  StronglySorted (fun u v => cmp v u = false) (insert_by cmp x l).
Proof.
  intros Hswo; induction l as [|y t IH]; simpl; intros Hs.
  - repeat constructor.
  - inversion Hs as [|? ? Ht Hy]; subst.
    destruct (cmp x y) eqn:Hxy.
    + constructor; [assumption|].
      constructor; [now apply swo_asym|].
      rewrite Forall_forall in *; intros z Hz.
      destruct (cmp z x) eqn:Hzx; [|reflexivity].
      rewrite <- (Hy z Hz). symmetry.
      exact (swo_trans _ Hswo _ _ _ Hzx Hxy).
    + constructor; [now apply IH|].
      rewrite Forall_forall in *; intros z Hz.
      apply (Permutation_in _ (Permutation_sym (insert_by_perm cmp x t))) in Hz.
      destruct Hz as [<-|Hz]; auto.
Qed.

Lemma insertion_sort_sorted cmp l :
  strict_weak_order cmp ->
  StronglySorted (fun u v => cmp v u = false) (insertion_sort cmp l).
Proof.
  intros Hswo; induction l as [|x t IH]; simpl.
  - constructor.
  - now apply insert_by_sorted.
Qed.

Definition insertion_sorter : sorter :=
  {| std_sort := insertion_sort;
     std_sort_perm := fun cmp l _ => insertion_sort_perm cmp l;
     std_sort_sorted := insertion_sort_sorted |}.

(** ** The scenarios of the specification *)

Example scenario_A_run :
  main insertion_sorter "2 0" scenario_A =
  {| exit_code := 0;
     output := [searching "/work"; sorting_descending;
                renamed "7.txt" "9.txt"; renamed "5.txt" "7.txt"; complete];
     final := [("7.txt", plain "five"); ("9.txt", plain "seven")] |}.
Proof. reflexivity. Qed.

Example scenario_B_run :
  main insertion_sorter "-5 0" (sample_world [("3.txt", plain "three")]) =
  {| exit_code := 0;
     output := [searching "/work"; sorting_ascending;
                skip_negative "3.txt" (-2); complete];
     final := [("3.txt", plain "three")] |}.
Proof. reflexivity. Qed.

Example scenario_C_run :
  main insertion_sorter "1 5" scenario_C =
  {| exit_code := 0;
     output := [searching "/work"; sorting_descending;
                renamed "9.txt" "10.txt"; renamed "5.txt" "6.txt";
                skip_below_b "2.txt" 2 5; complete];
     final := [("2.txt", plain "two"); ("6.txt", plain "five");
               ("10.txt", plain "nine")] |}.
Proof. reflexivity. Qed.

Example scenario_D_run :
  main insertion_sorter "1 0"
       (sample_world [("notes.txt", plain "n"); ("7.d", folder)]) =
  {| exit_code := 0;
     output := [searching "/work"; no_files_found];
     final := [("notes.txt", plain "n"); ("7.d", folder)] |}.
Proof. reflexivity. Qed.

Example scenario_E_run :
  main insertion_sorter "two 0" scenario_A =
  {| exit_code := 1;
     output := [invalid_input_a];
     final := entries scenario_A |}.
Proof. reflexivity. Qed.

(** The largest [int] plus one wraps to the smallest, and the file is
    skipped. *)
Example largest_number_run :
  output (main insertion_sorter "1 0"
            (sample_world [("2147483647.txt", plain "max")])) =
  [searching "/work"; sorting_descending;
   skip_negative "2147483647.txt" (-2147483648); complete].
Proof. reflexivity. Qed.

(** ** Digit strings, [stoi] and [to_string] *)

Lemma is_digit_uint_of_char c u :
  is_digit c = true -> exists u', uint_of_char c (Some u) = Some u'.
Proof.
  destruct c as [[|] [|] [|] [|] [|] [|] [|] [|]];
    vm_compute; intros H; try discriminate H; eauto.
Qed.

Lemma uint_of_char_is_digit c o u :
  uint_of_char c o = Some u -> is_digit c = true /\ o <> None.
Proof.
  destruct o as [v|]; [|discriminate].
  intros H; split; [|discriminate].
  destruct c as [[|] [|] [|] [|] [|] [|] [|] [|]];
    try discriminate H; reflexivity.
Qed.

Lemma digits_uint_of_string s :
  string_forallb is_digit s = true ->
  exists u, NilEmpty.uint_of_string s = Some u.
Proof.
  induction s as [|c t IH]; simpl.
  - eauto.
  - intros H; apply andb_prop in H as [Hc Ht].
    destruct (IH Ht) as [u ->]. now apply is_digit_uint_of_char.
Qed.

Lemma uint_of_string_digits s u :
  NilEmpty.uint_of_string s = Some u -> string_forallb is_digit s = true.
Proof.
  revert u; induction s as [|c t IH]; simpl; intros u H.
  - reflexivity.
  - apply uint_of_char_is_digit in H as [-> Hn].
    destruct (NilEmpty.uint_of_string t) eqn:E; [|congruence].
    simpl. eapply IH; reflexivity.
Qed.

Lemma string_of_uint_digits u :
  string_forallb is_digit (NilEmpty.string_of_uint u) = true.
Proof.
  apply uint_of_string_digits with u, NilEmpty.usu.
Qed.

Lemma string_of_uint_empty u :
  NilEmpty.string_of_uint u = EmptyString -> u = Nil.
Proof. destruct u; simpl; congruence. Qed.

Lemma to_uint_normal n : unorm (N.to_uint n) = N.to_uint n.
Proof.
  rewrite <- DecimalN.Unsigned.to_of.
  now rewrite DecimalN.Unsigned.of_to.
Qed.

Lemma to_uint_not_nil n : N.to_uint n <> Nil.
Proof. rewrite <- to_uint_normal. apply unorm_nonnil. Qed.

Lemma unorm_fix_no_leading_zero u :
  unorm u = u -> no_leading_zero (NilEmpty.string_of_uint u) = true.
Proof.
  destruct u as [|v| | | | | | | | |]; try reflexivity.
  destruct v; try reflexivity; intros H; exfalso;
    rewrite unorm_D0 in H;
    match type of H with
    | unorm ?x = _ =>
        assert (Hx : x <> Nil) by discriminate;
        pose proof (nb_digits_unorm x Hx) as Hle;
        rewrite H in Hle; simpl in Hle; lia
    end.
Qed.

Lemma no_leading_zero_unorm_fix u :
  u <> Nil ->
  no_leading_zero (NilEmpty.string_of_uint u) = true -> unorm u = u.
Proof.
  destruct u as [|v| | | | | | | | |]; try reflexivity; try congruence.
  destruct v; simpl; intros _ H; try discriminate H; reflexivity.
Qed.

Lemma to_string_nonneg n :
  0 <= n -> to_string n = NilEmpty.string_of_uint (N.to_uint (Z.to_N n)).
Proof. destruct n; simpl; intros H; try reflexivity; lia. Qed.

Lemma to_string_digits n : 0 <= n -> digit_string (to_string n).
Proof.
  intros H; rewrite (to_string_nonneg n H); split.
  - intros E. apply string_of_uint_empty in E. now apply to_uint_not_nil in E.
  - apply string_of_uint_digits.
Qed.

Lemma to_string_no_leading_zero n :
  0 <= n -> no_leading_zero (to_string n) = true.
Proof.
  intros H; rewrite (to_string_nonneg n H).
  apply unorm_fix_no_leading_zero, to_uint_normal.
Qed.

Lemma stoi_to_string n :
  0 <= n <= INT_MAX -> stoi (to_string n) = stoi_ok n.
Proof.
  intros [H0 H1].
  destruct (to_string_digits n H0) as [Hne _].
  unfold stoi. destruct (to_string n) eqn:E; [congruence|].
  rewrite <- E, (to_string_nonneg n H0), NilEmpty.usu.
  rewrite DecimalN.Unsigned.of_to, Z2N.id by assumption.
  apply Z.leb_le in H1. now rewrite H1.
Qed.

Lemma stoi_ok_inv s n :
  stoi s = stoi_ok n ->
  digit_string s /\ 0 <= n <= INT_MAX /\
  exists u, NilEmpty.uint_of_string s = Some u /\ n = Z.of_N (N.of_uint u).
Proof.
  unfold stoi. destruct s as [|c t]; [discriminate|].
  destruct (NilEmpty.uint_of_string (String c t)) as [u|] eqn:E; [|discriminate].
  destruct (Z.leb_spec (Z.of_N (N.of_uint u)) INT_MAX); [|discriminate].
  intros [= <-]. repeat split.
  - discriminate.
  - now apply uint_of_string_digits with u.
  - lia.
  - assumption.
  - eauto.
Qed.

(** Printing the value of a digit run gives the run back exactly when
    it has no leading zero. *)
Lemma to_string_stoi s n :
  stoi s = stoi_ok n -> (to_string n = s <-> no_leading_zero s = true).
Proof.
  intros H. apply stoi_ok_inv in H as ([Hne _] & [H0 _] & u & Hu & ->).
  rewrite to_string_nonneg, N2Z.id, DecimalN.Unsigned.to_of by lia.
  pose proof (NilEmpty.sus _ _ Hu) as Hs. split.
  - intros E. rewrite <- Hs in E |- *.
    apply unorm_fix_no_leading_zero.
    apply (f_equal NilEmpty.uint_of_string) in E.
    rewrite !NilEmpty.usu in E. congruence.
  - intros Hz. rewrite <- Hs in Hz.
    rewrite no_leading_zero_unorm_fix; auto.
    intros ->. simpl in Hs. congruence.
Qed.

(** ** The filename pattern *)

Lemma span_digits_spec s :
  s = fst (span_digits s) ++ snd (span_digits s) /\
  string_forallb is_digit (fst (span_digits s)) = true.
Proof.
  induction s as [|c t [IH1 IH2]]; simpl.
  - auto.
  - destruct (is_digit c) eqn:Hc; [|auto].
    destruct (span_digits t) as [d r]; simpl in *.
    rewrite Hc, IH2. split; [congruence|reflexivity].
Qed.

Lemma span_digits_app d r :
  string_forallb is_digit d = true ->
  match r with String c _ => is_digit c = false | EmptyString => True end ->
  span_digits (d ++ r) = (d, r).
Proof.
  intros Hd Hr; induction d as [|c t IH]; simpl in *.
  - destruct r as [|c r]; [reflexivity|]. simpl. now rewrite Hr.
  - apply andb_prop in Hd as [Hc Ht]. now rewrite Hc, (IH Ht).
Qed.

Lemma regex_match_inv name d e :
  regex_match name = Some (d, e) ->
  name = d ++ "." ++ e /\ digit_string d /\
  e <> EmptyString /\ string_forallb any_char e = true.
Proof.
  unfold regex_match.
  destruct (span_digits_spec name) as [Happ Hdig].
  destruct (span_digits name) as [ds r]; cbn [fst snd] in *.
  destruct ds as [|c ds]; [discriminate|].
  destruct r as [|dot r]; [discriminate|].
  destruct (Ascii.eqb_spec dot "."%char) as [->|Hdot].
  - destruct r as [|e0 es]; [discriminate|].
    destruct (string_forallb any_char (String e0 es)) eqn:Hany; [|discriminate].
    intros [= <- <-].
    split; [exact Happ|].
    split; [split; [discriminate|exact Hdig]|].
    split; [discriminate|exact Hany].
  - intros H; exfalso.
    destruct dot as [[|] [|] [|] [|] [|] [|] [|] [|]];
      try discriminate H; now apply Hdot.
Qed.

Lemma regex_match_intro d e :
  digit_string d -> e <> EmptyString -> string_forallb any_char e = true ->
  regex_match (d ++ "." ++ e) = Some (d, e).
Proof.
  intros [Hne Hd] He Hany. unfold regex_match.
  rewrite span_digits_app by (simpl; auto).
  destruct d as [|c ds]; [congruence|].
  destruct e as [|e0 es]; [congruence|].
  cbn -[string_forallb]. now rewrite Hany.
Qed.

(** ** Arithmetic on [int] *)

Lemma wrap_int_spec z :
  in_int (wrap_int z) /\ exists k, wrap_int z = z + k * 4294967296.
Proof.
  unfold wrap_int, in_int, INT_MIN, INT_MAX.
  change (2 ^ 32) with 4294967296.
  pose proof (Z.mod_pos_bound (z - -2147483648) 4294967296 eq_refl).
  split; [lia|].
  exists (- ((z - -2147483648) / 4294967296)).
  rewrite Z.mod_eq by lia. lia.
Qed.

Lemma int_add_in_int x y : in_int (int_add x y).
Proof. apply wrap_int_spec. Qed.

Lemma int_add_exact x y : in_int (x + y) -> int_add x y = x + y.
Proof.
  unfold int_add. destruct (wrap_int_spec (x + y)) as [Hr [k Hk]].
  unfold in_int, INT_MIN, INT_MAX in *. lia.
Qed.

(** With a non-negative [int] on the left, a sum that leaves the range
    of [int] wraps to a negative value: a non-negative result is the
    exact sum. *)
Lemma int_add_nonneg n a :
  0 <= n <= INT_MAX -> in_int a -> 0 <= int_add n a -> int_add n a = n + a.
Proof.
  unfold int_add. destruct (wrap_int_spec (n + a)) as [Hr [k Hk]].
  unfold in_int, INT_MIN, INT_MAX in *. lia.
Qed.

Lemma int_add_negative n a :
  0 <= n <= INT_MAX -> in_int a -> n + a < 0 -> int_add n a = n + a.
Proof.
  intros Hn Ha Hneg. apply int_add_exact.
  unfold in_int, INT_MIN, INT_MAX in *. lia.
Qed.

(** ** Standard input *)

Lemma istream_int_in_int input v rest :
  istream_int input = (Some v, rest) -> in_int v.
Proof.
  unfold istream_int.
  destruct (match skip_ws input with
            | String "-" t => (true, t)
            | String "+" t => (false, t)
            | _ => (false, skip_ws input)
            end) as [neg s'].
  destruct (span_digits s') as [ds r].
  destruct ds as [|c ds]; [discriminate|].
  destruct (NilEmpty.uint_of_string (String c ds)) as [u|]; [|discriminate].
  destruct (in_intb _) eqn:E; [|discriminate].
  intros [= <- _]. unfold in_intb in E.
  apply andb_prop in E as [E1 E2].
  apply Z.leb_le in E1, E2. split; assumption.
Qed.

(** ** The scan *)

Lemma scan_app cwd es1 es2 :
  scan cwd (es1 ++ es2)%list =
  ((fst (scan cwd es1) ++ fst (scan cwd es2))%list,
   (snd (scan cwd es1) ++ snd (scan cwd es2))%list).
Proof.
  induction es1 as [|e t IH]; simpl.
  - now destruct (scan cwd es2).
  - rewrite IH. destruct (scan_entry cwd e) as [f1 m1].
    destruct (scan cwd t) as [f2 m2]; simpl.
    now rewrite !List.app_assoc.
Qed.

Lemma scan_cons cwd e es :
  scan cwd (e :: es) =
  ((fst (scan_entry cwd e) ++ fst (scan cwd es))%list,
   (snd (scan_entry cwd e) ++ snd (scan cwd es))%list).
Proof.
  simpl. destruct (scan_entry cwd e), (scan cwd es); reflexivity.
Qed.

Lemma scan_entry_In cwd name nd fi :
  In fi (fst (scan_entry cwd (name, nd))) <->
  exists digits,
    filename (original_path fi) = name /\
    is_regular_file nd = true /\
    regex_match name = Some (digits, extension fi) /\
    stoi digits = stoi_ok (number fi) /\
    parent_path (original_path fi) = cwd.
Proof.
  unfold scan_entry. split.
  - destruct (is_regular_file nd); [|intros []].
    destruct (regex_match name) as [[digits ext]|]; [|intros []].
    destruct (stoi digits) eqn:Hs; simpl; try tauto.
    intros [<-|[]]; simpl. exists digits; auto.
  - intros (digits & Hn & -> & -> & -> & Hp).
    left. destruct fi as [n [p f] e]; simpl in *. now subst.
Qed.

Lemma scan_In cwd es fi :
  In fi (fst (scan cwd es)) <-> matched cwd es fi.
Proof.
  unfold matched. induction es as [|[name nd] t IH].
  - simpl. split; [intros []|intros (? & ? & [] & _)].
  - rewrite scan_cons. cbn [fst]. rewrite in_app_iff, IH, scan_entry_In.
    split.
    + intros [(digits & Hn & Hr & Hm & Hs & Hp)
             |(nd' & digits & Hin & Hr & Hm & Hs & Hp)].
      * exists nd, digits. rewrite Hn. simpl. intuition.
      * exists nd', digits. simpl. intuition.
    + intros (nd' & digits & [Hin|Hin] & Hr & Hm & Hs & Hp).
      * injection Hin as Hn <-. left. exists digits. rewrite Hn. intuition.
      * right. exists nd', digits. intuition.
Qed.

Lemma files_of_matched w fi :
  In fi (files_of w) <-> matched (current_path w) (entries w) fi.
Proof. apply scan_In. Qed.

(** A matched file carries a number that is a non-negative [int]. *)
Lemma matched_number cwd es fi :
  matched cwd es fi -> 0 <= number fi <= INT_MAX.
Proof.
  intros (nd & digits & _ & _ & _ & Hs & _).
  now apply stoi_ok_inv in Hs as (_ & H & _).
Qed.

(** The scan only prints warnings. *)
Lemma scan_messages cwd es m :
  In m (snd (scan cwd es)) ->
  exists name, m = warn_not_converted name \/ m = warn_out_of_range name.
Proof.
  induction es as [|[name nd] t IH].
  - intros [].
  - rewrite scan_cons. cbn [snd]. rewrite in_app_iff. intros [H|H]; auto.
    unfold scan_entry in H.
    destruct (is_regular_file nd); [|destruct H].
    destruct (regex_match name) as [[digits ext]|]; [|destruct H].
    destruct (stoi digits); simpl in H; intuition eauto.
Qed.

(** ** The loop body *)

Lemma decide_cases a b fi :
  (number fi < b /\ decide a b fi = do_skip_below_b) \/
  (b <= number fi /\ int_add (number fi) a < 0 /\
   decide a b fi = do_skip_negative (int_add (number fi) a)) \/
  (b <= number fi /\ 0 <= int_add (number fi) a /\
   filename (original_path fi) = new_name a fi /\
   decide a b fi = do_skip_identical) \/
  (b <= number fi /\ 0 <= int_add (number fi) a /\
   filename (original_path fi) <> new_name a fi /\
   decide a b fi = do_rename (new_name a fi)).
Proof.
  unfold decide, new_name.
  destruct (Z.ltb_spec (number fi) b); [left; auto|right].
  destruct (Z.ltb_spec (int_add (number fi) a) 0); [left; auto|right].
  destruct (String.eqb_spec (filename (original_path fi))
              (to_string (int_add (number fi) a) ++ "." ++ extension fi));
    [left|right]; auto.
Qed.

Lemma decide_rename_inv a b fi new :
  decide a b fi = do_rename new ->
  b <= number fi /\ 0 <= int_add (number fi) a /\
  new = new_name a fi /\ filename (original_path fi) <> new.
Proof.
  destruct (decide_cases a b fi)
    as [[_ E]|[(_ & _ & E)|[(_ & _ & _ & E)|(H1 & H2 & H3 & E)]]];
    rewrite E; try discriminate.
  intros [= <-]. auto.
Qed.

Lemma rename_file_reports w a b d fi :
  reports a b fi (snd (rename_file w a b d fi)).
Proof.
  unfold reports, rename_file.
  destruct (decide a b fi); simpl; auto.
  destruct (fs_rename _ _ _ _); simpl; auto.
Qed.

Lemma rename_pass_cons w a b d fi rest :
  rename_pass w a b d (fi :: rest) =
  (fst (rename_pass w a b (fst (rename_file w a b d fi)) rest),
   snd (rename_file w a b d fi)
     :: snd (rename_pass w a b (fst (rename_file w a b d fi)) rest)).
Proof.
  simpl. destruct (rename_file w a b d fi) as [d1 m]; simpl.
  now destruct (rename_pass w a b d1 rest).
Qed.

Lemma rename_pass_reports w a b files :
  forall d, Forall2 (reports a b) files (snd (rename_pass w a b d files)).
Proof.
  induction files as [|fi rest IH]; intros d.
  - constructor.
  - rewrite rename_pass_cons. constructor; [apply rename_file_reports|apply IH].
Qed.

Lemma Forall2_In_r {A B : Type} (R : A -> B -> Prop) l l' y :
  Forall2 R l l' -> In y l' -> exists x, In x l /\ R x y.
Proof.
  induction 1 as [|x y' l l' Hxy _ IH]; intros Hin.
  - destruct Hin.
  - destruct Hin as [<-|Hin].
    + exists x; simpl; auto.
    + destruct (IH Hin) as (x' & Hx' & HR). exists x'; simpl; auto.
Qed.

Lemma Forall2_In_l {A B : Type} (R : A -> B -> Prop) l l' x :
  Forall2 R l l' -> In x l -> exists y, In y l' /\ R x y.
Proof.
  induction 1 as [|x' y l l' Hxy _ IH]; intros Hin.
  - destruct Hin.
  - destruct Hin as [<-|Hin].
    + exists y; simpl; auto.
    + destruct (IH Hin) as (y' & Hy' & HR). exists y'; simpl; auto.
Qed.

Lemma reports_rename_call a b fi m old new :
  reports a b fi m -> rename_call m old new ->
  filename (original_path fi) = old /\ decide a b fi = do_rename new.
Proof.
  unfold reports, rename_call.
  destruct (decide a b fi); intros H [E|E]; rewrite E in H;
    try discriminate H;
    destruct H as [H|H]; try discriminate H;
    injection H as <- <-; auto.
Qed.

(** ** The sort *)

Lemma StronglySorted_weaken {A : Type} (R R' : A -> A -> Prop) l :
  (forall x y, R x y -> R' x y) ->
  StronglySorted R l -> StronglySorted R' l.
Proof.
  intros HR; induction 1 as [|x l _ IH Hx]; constructor; auto.
  eapply Forall_impl; [|exact Hx]. auto.
Qed.

Lemma sort_files_perm S a files : Permutation files (sort_files S a files).
Proof.
  unfold sort_files. destruct (0 <=? a); apply std_sort_perm.
  - apply compareFilesDesc_swo.
  - apply compareFilesAsc_swo.
Qed.

Lemma sort_files_descending S a files :
  0 <= a ->
  StronglySorted (fun x y => number y <= number x) (sort_files S a files).
Proof.
  intros Ha. unfold sort_files. apply Z.leb_le in Ha. rewrite Ha.
  eapply StronglySorted_weaken;
    [|apply (std_sort_sorted S _ files compareFilesDesc_swo)].
  unfold compareFilesDesc. intros x y H. apply Z.ltb_ge in H. lia.
Qed.

Lemma sort_files_ascending S a files :
  a < 0 ->
  StronglySorted (fun x y => number x <= number y) (sort_files S a files).
Proof.
  intros Ha. unfold sort_files. apply Z.leb_gt in Ha. rewrite Ha.
  eapply StronglySorted_weaken;
    [|apply (std_sort_sorted S _ files compareFilesAsc_swo)].
  unfold compareFilesAsc. intros x y H. apply Z.ltb_ge in H. lia.
Qed.

(** ** Shape of a run *)

Lemma run_fault S a b w k :
  scan_fault w = Some k ->
  run S a b w =
  {| exit_code := 1;
     output := (searching (current_path w)
                  :: snd (scan (current_path w) (firstn k (entries w)))
                  ++ [error_accessing_directory])%list;
     final := entries w |}.
Proof.
  intros Hf. unfold run, directory_iterator. rewrite Hf.
  now destruct (scan (current_path w) (firstn k (entries w))).
Qed.

Lemma run_empty S a b w :
  scan_fault w = None -> files_of w = [] ->
  run S a b w =
  {| exit_code := 0;
     output := (searching (current_path w)
                  :: snd (scan (current_path w) (entries w))
                  ++ [no_files_found])%list;
     final := entries w |}.
Proof.
  intros Hf He. unfold run, directory_iterator. rewrite Hf.
  unfold files_of in He.
  destruct (scan (current_path w) (entries w)) as [fs ws].
  simpl in He. now subst fs.
Qed.

Lemma run_pass S a b w :
  scan_fault w = None -> files_of w <> [] ->
  run S a b w =
  {| exit_code := 0;
     output := (searching (current_path w)
                  :: snd (scan (current_path w) (entries w))
                  ++ (if 0 <=? a then sorting_descending else sorting_ascending)
                  :: snd (pass_of S a b w) ++ [complete])%list;
     final := fst (pass_of S a b w) |}.
Proof.
  intros Hf He. unfold run, directory_iterator, pass_of. rewrite Hf.
  unfold files_of in *.
  destruct (scan (current_path w) (entries w)) as [fs ws].
  simpl in *. destruct fs as [|f fs]; [congruence|].
  now destruct (rename_pass w a b (entries w) (sort_files S a (f :: fs))).
Qed.

Lemma scan_quiet cwd es : Forall quiet (snd (scan cwd es)).
Proof.
  apply Forall_forall. intros m Hm old new Hc.
  apply scan_messages in Hm as [name [-> | ->]];
    destruct Hc; discriminate.
Qed.

Lemma quiet_note (a : Z) :
  quiet (if 0 <=? a then sorting_descending else sorting_ascending).
Proof. intros old new [H|H]; destruct (0 <=? a); discriminate. Qed.

(** Every run prints the lines of a rename pass over files of the
    scan, in sorted order, between lines that report no rename. *)
Lemma run_shape S a b w :
  exists pre log post files,
    output (run S a b w) = (pre ++ log ++ post)%list /\
    Forall quiet pre /\ Forall quiet post /\
    Forall2 (reports a b) files log /\
    (files = [] \/ Permutation (files_of w) files) /\
    (0 <= a -> StronglySorted (fun x y => number y <= number x) files) /\
    (a < 0 -> StronglySorted (fun x y => number x <= number y) files).
Proof.
  assert (Hq : forall m, (forall o n, m <> renamed o n) ->
                         (forall o n, m <> error_renaming o n) -> quiet m).
  { intros m H1 H2 old new [E|E]; [eapply H1|eapply H2]; eassumption. }
  destruct (scan_fault w) as [k|] eqn:Hf.
  - rewrite (run_fault S a b w k Hf). cbn [output].
    eexists _, [], [], []. rewrite !List.app_nil_r.
    split; [reflexivity|].
    split; [|repeat split; auto; constructor].
    constructor; [apply Hq; discriminate|].
    apply Forall_app; split; [apply scan_quiet|].
    constructor; [apply Hq; discriminate|constructor].
  - assert (Hcase : files_of w = [] \/ files_of w <> [])
      by (destruct (files_of w); [left; reflexivity|right; discriminate]).
    destruct Hcase as [He|Hne].
    + rewrite (run_empty S a b w Hf He). cbn [output].
      eexists _, [], [], []. rewrite !List.app_nil_r.
      split; [reflexivity|].
      split; [|repeat split; auto; constructor].
      constructor; [apply Hq; discriminate|].
      apply Forall_app; split; [apply scan_quiet|].
      constructor; [apply Hq; discriminate|constructor].
    + rewrite (run_pass S a b w Hf Hne). cbn [output].
      exists (searching (current_path w)
                :: snd (scan (current_path w) (entries w))
                ++ [if 0 <=? a then sorting_descending else sorting_ascending])%list,
        (snd (pass_of S a b w)), [complete],
        (sort_files S a (files_of w)).
      split; [simpl; f_equal; now rewrite <- List.app_assoc|].
      split.
      { constructor; [apply Hq; discriminate|].
        apply Forall_app; split; [apply scan_quiet|].
        constructor; [apply quiet_note|constructor]. }
      split; [constructor; [apply Hq; discriminate|constructor]|].
      split; [apply rename_pass_reports|].
      split; [right; apply sort_files_perm|].
      split; [apply sort_files_descending|apply sort_files_ascending].
Qed.

(** A reported call of [fs::rename] comes from a file of the scan for
    which the loop body decided to rename. *)
Lemma run_rename_call S a b w m old new :
  In m (output (run S a b w)) -> rename_call m old new ->
  exists fi,
    In fi (files_of w) /\ filename (original_path fi) = old /\
    decide a b fi = do_rename new.
Proof.
  intros Hin Hc.
  destruct (run_shape S a b w)
    as (pre & log & post & files & Hout & Hpre & Hpost & Hrep & Hfiles & _).
  rewrite Hout, !in_app_iff in Hin.
  rewrite Forall_forall in Hpre, Hpost.
  destruct Hin as [Hin|[Hin|Hin]];
    [exfalso; exact (Hpre m Hin old new Hc)| |
     exfalso; exact (Hpost m Hin old new Hc)].
  destruct (Forall2_In_r _ _ _ _ Hrep Hin) as (fi & Hfi & Hr).
  exists fi. split; [|now apply reports_rename_call with m].
  destruct Hfiles as [->|Hp]; [destruct Hfi|].
  eapply Permutation_in; [apply Permutation_sym|]; eassumption.
Qed.

(** ** Order of the renames *)

Lemma called_selects : selects_calls called.
Proof.
  intros m old. unfold rename_call.
  destruct m; simpl; intros [= <-]; eauto.
Qed.

Lemma performed_selects : selects_calls performed.
Proof.
  intros m old. unfold rename_call.
  destruct m; simpl; intros [= <-]; eauto.
Qed.

Lemma matched_number_of_name cwd es fi :
  matched cwd es fi ->
  number_of_name (filename (original_path fi)) = Some (number fi).
Proof.
  intros (nd & digits & _ & _ & Hm & Hs & _).
  unfold number_of_name. now rewrite Hm, Hs.
Qed.

Lemma numbers_in_app sel l1 l2 :
  numbers_in sel (l1 ++ l2)%list = (numbers_in sel l1 ++ numbers_in sel l2)%list.
Proof. apply flat_map_app. Qed.

Lemma numbers_in_quiet sel l :
  selects_calls sel -> Forall quiet l -> numbers_in sel l = [].
Proof.
  intros Hsel; induction 1 as [|m l Hm _ IH]; simpl.
  - reflexivity.
  - destruct (sel m) as [old|] eqn:E; [|exact IH].
    destruct (Hsel m old E) as [new Hc]. now apply Hm in Hc.
Qed.

Section PassOrder.

Variables (a b : Z) (sel : message -> option string).
Hypothesis Hsel : selects_calls sel.

Let named (fi : FileInfo) : Prop :=
  number_of_name (filename (original_path fi)) = Some (number fi).

Lemma numbers_in_step fi m :
  named fi -> reports a b fi m ->
  numbers_in sel [m] = [] \/ numbers_in sel [m] = [number fi].
Proof.
  intros Hn Hr. unfold numbers_in. simpl.
  destruct (sel m) as [old|] eqn:E; [|now left].
  destruct (Hsel m old E) as [new Hc].
  destruct (reports_rename_call a b fi m old new Hr Hc) as [<- _].
  rewrite Hn. now right.
Qed.

Lemma numbers_in_from files log k :
  Forall named files -> Forall2 (reports a b) files log ->
  In k (numbers_in sel log) -> In k (map number files).
Proof.
  intros Hn Hr; revert Hn.
  induction Hr as [|fi m files log Hfm _ IH]; intros Hn Hk.
  - destruct Hk.
  - inversion Hn as [|? ? Hfi Hrest]; subst.
    change (m :: log) with ([m] ++ log)%list in Hk.
    rewrite numbers_in_app, in_app_iff in Hk.
    destruct Hk as [Hk|Hk]; [|right; auto].
    destruct (numbers_in_step fi m Hfi Hfm) as [E|E];
      rewrite E in Hk; simpl in Hk; [tauto|].
    left. tauto.
Qed.

Lemma numbers_in_sorted (R : Z -> Z -> Prop) files log :
  Forall named files -> Forall2 (reports a b) files log ->
  StronglySorted (fun x y => R (number x) (number y)) files ->
  StronglySorted R (numbers_in sel log).
Proof.
  intros Hn Hr; revert Hn.
  induction Hr as [|fi m files log Hfm Hr IH]; intros Hn Hs.
  - constructor.
  - inversion Hn as [|? ? Hfi Hrest]; subst.
    inversion Hs as [|? ? Hs' Hall]; subst.
    change (m :: log) with ([m] ++ log)%list.
    rewrite numbers_in_app.
    destruct (numbers_in_step fi m Hfi Hfm) as [E|E]; rewrite E; simpl.
    + now apply IH.
    + constructor; [now apply IH|].
      apply Forall_forall. intros k Hk.
      apply (numbers_in_from files log k Hrest Hr) in Hk.
      apply in_map_iff in Hk as (fj & <- & Hfj).
      rewrite Forall_forall in Hall. now apply Hall.
Qed.

End PassOrder.

Lemma StronglySorted_NoDup_strict {A : Type} (R : A -> A -> Prop)
  (f : A -> Z) l :
  StronglySorted R l -> NoDup (map f l) ->
  StronglySorted (fun x y => R x y /\ f x <> f y) l.
Proof.
  induction 1 as [|x l _ IH Hx]; simpl; intros Hnd.
  - constructor.
  - inversion Hnd as [|? ? Hnotin Hnd']; subst.
    constructor; [now apply IH|].
    rewrite Forall_forall in *. intros y Hy. split; [now apply Hx|].
    intros E. apply Hnotin. rewrite E. now apply in_map.
Qed.

(** The numbers of the files selected by [sel] in the output of a run
    follow the order of the sort, strictly when no two files of the
    scan carry the same number. *)
Lemma run_numbers_sorted S a b w sel :
  selects_calls sel ->
  (0 <= a ->
   StronglySorted (fun x y => y <= x) (numbers_in sel (output (run S a b w)))) /\
  (a < 0 ->
   StronglySorted (fun x y => x <= y) (numbers_in sel (output (run S a b w)))) /\
  (NoDup (map number (files_of w)) ->
   (0 <= a ->
    StronglySorted (fun x y => y < x) (numbers_in sel (output (run S a b w)))) /\
   (a < 0 ->
    StronglySorted (fun x y => x < y) (numbers_in sel (output (run S a b w))))).
Proof.
  intros Hsel.
  destruct (run_shape S a b w)
    as (pre & log & post & files & Hout & Hpre & Hpost & Hrep & Hfiles
        & Hdesc & Hasc).
  rewrite Hout, !numbers_in_app,
    (numbers_in_quiet sel pre Hsel Hpre),
    (numbers_in_quiet sel post Hsel Hpost), List.app_nil_r.
  cbn [app].
  assert (Hnamed : Forall (fun fi =>
            number_of_name (filename (original_path fi)) = Some (number fi))
            files).
  { apply Forall_forall. intros fi Hfi.
    destruct Hfiles as [->|Hp]; [destruct Hfi|].
    apply matched_number_of_name with (current_path w) (entries w).
    apply files_of_matched.
    eapply Permutation_in; [apply Permutation_sym|]; eassumption. }
  assert (Hnd : NoDup (map number (files_of w)) -> NoDup (map number files)).
  { destruct Hfiles as [->|Hp]; [constructor|].
    intros H. eapply Permutation_NoDup; [|exact H].
    now apply Permutation_map. }
  split; [|split; [|split]].
  - intros Ha. apply (numbers_in_sorted a b sel Hsel _ files log Hnamed Hrep).
    now apply Hdesc.
  - intros Ha. apply (numbers_in_sorted a b sel Hsel _ files log Hnamed Hrep).
    now apply Hasc.
  - intros Ha. apply (numbers_in_sorted a b sel Hsel _ files log Hnamed Hrep).
    eapply StronglySorted_weaken;
      [|apply (StronglySorted_NoDup_strict _ number _ (Hdesc Ha) (Hnd H))].
    simpl; lia.
  - intros Ha. apply (numbers_in_sorted a b sel Hsel _ files log Hnamed Hrep).
    eapply StronglySorted_weaken;
      [|apply (StronglySorted_NoDup_strict _ number _ (Hasc Ha) (Hnd H))].
    simpl; lia.
Qed.

(** * The claims *)

(** C1, as stated, fails: with [5.txt] and [5.jpg] and offset 1 both
    files are renamed, and their original numbers 5, 5 are not in
    strictly decreasing order. *)
Lemma tie_not_strictly_decreasing :
  renamed_numbers (output (run insertion_sorter 1 0 tie_world)) = [5; 5] /\
  ~ StronglySorted Z.gt
      (renamed_numbers (output (run insertion_sorter 1 0 tie_world))).
Proof.
  split; [reflexivity|].
  change (renamed_numbers (output (run insertion_sorter 1 0 tie_world)))
    with [5; 5].
  intros H. inversion H as [|? ? _ Hall]; subst.
  inversion Hall as [|? ? Hgt _]; subst. lia.
Qed.

(** The tie does not depend on the sorting algorithm: whatever
    [std::sort] does with the two files, both are renamed. *)
Lemma tie_any_sort S :
  renamed_numbers (output (run S 1 0 tie_world)) = [5; 5].
Proof.
  assert (Hne : files_of tie_world <> []) by discriminate.
  rewrite (run_pass S 1 0 tie_world eq_refl Hne). cbn [output].
  unfold pass_of.
  pose proof (sort_files_perm S 1 (files_of tie_world)) as Hp.
  change (files_of tie_world) with
    [ {| number := 5; original_path := path_append "/work" "5.txt";
         extension := "txt" |};
      {| number := 5; original_path := path_append "/work" "5.jpg";
         extension := "jpg" |} ] in *.
  apply Permutation_length_2_inv in Hp as [-> | ->]; reflexivity.
Qed.

(** C1 (amended): the renames of a run follow the sort.  With
    [offset >= 0] the original numbers of the renamed files, in the
    order of the renames, never increase; with [offset < 0] they never
    decrease.  When no two matched files carry the same number the
    order is strict. *)
Theorem renames_follow_sort S a b w :
  (0 <= a -> ordered Z.ge (output (run S a b w))) /\
  (a < 0 -> ordered Z.le (output (run S a b w))) /\
  (NoDup (map number (files_of w)) ->
   (0 <= a -> ordered Z.gt (output (run S a b w))) /\
   (a < 0 -> ordered Z.lt (output (run S a b w)))).
Proof.
  destruct (run_numbers_sorted S a b w called called_selects)
    as (C1 & C2 & C3).
  destruct (run_numbers_sorted S a b w performed performed_selects)
    as (P1 & P2 & P3).
  unfold ordered, called_numbers, renamed_numbers.
  assert (Hw : forall (R R' : Z -> Z -> Prop) sel,
             (forall x y, R x y -> R' x y) ->
             StronglySorted R (numbers_in sel (output (run S a b w))) ->
             StronglySorted R' (numbers_in sel (output (run S a b w))))
    by (intros; eapply StronglySorted_weaken; eassumption).
  split; [|split].
  - intros Ha. split; apply (Hw (fun x y => y <= x)); auto; intros; lia.
  - intros Ha. split; apply (Hw (fun x y => x <= y)); auto; intros; lia.
  - intros Hnd. destruct (C3 Hnd) as [C3d C3a], (P3 Hnd) as [P3d P3a].
    split; intros Ha; split.
    + apply (Hw (fun x y => y < x)); auto; intros; lia.
    + apply (Hw (fun x y => y < x)); auto; intros; lia.
    + apply (Hw (fun x y => x < y)); auto.
    + apply (Hw (fun x y => x < y)); auto.
Qed.

Lemma renames_follow_sort_witness :
  ordered Z.gt (output (run insertion_sorter 2 0 scenario_A)).
Proof.
  destruct (renames_follow_sort insertion_sorter 2 0 scenario_A)
    as (_ & _ & H).
  apply H; [|lia].
  change (NoDup [5; 7]).
  repeat constructor; simpl; intuition discriminate.
Defined.

(** ** Offset zero *)

Lemma matched_new_name_zero cwd es fi :
  matched cwd es fi ->
  int_add (number fi) 0 = number fi /\
  (filename (original_path fi) = new_name 0 fi <->
   canonical_name (filename (original_path fi)) = true).
Proof.
  intros (nd & digits & _ & _ & Hm & Hs & _).
  pose proof (stoi_ok_inv _ _ Hs) as (Hd & Hrange & _).
  assert (E : int_add (number fi) 0 = number fi).
  { rewrite int_add_exact; [lia|].
    unfold in_int, INT_MIN, INT_MAX in *. lia. }
  split; [exact E|].
  unfold new_name, canonical_name. rewrite E, Hm.
  rewrite <- (to_string_stoi _ _ Hs).
  destruct (regex_match_inv _ _ _ Hm) as (Hname & _ & He & Hany).
  split.
  - intros Heq. rewrite Heq in Hm.
    rewrite regex_match_intro in Hm; auto.
    + congruence.
    + apply to_string_digits; lia.
  - intros Heq. now rewrite Heq.
Qed.

Lemma rename_file_skip w a b d fi :
  (forall new, decide a b fi <> do_rename new) ->
  fst (rename_file w a b d fi) = d /\ quiet (snd (rename_file w a b d fi)).
Proof.
  unfold rename_file, quiet, rename_call. intros Hs.
  destruct (decide a b fi) as [| | |new]; simpl;
    try (split; [reflexivity|intros old new' [H|H]; discriminate]).
  now destruct (Hs new).
Qed.

Lemma rename_pass_skip w a b files :
  Forall (fun fi => forall new, decide a b fi <> do_rename new) files ->
  forall d,
    fst (rename_pass w a b d files) = d /\
    Forall quiet (snd (rename_pass w a b d files)).
Proof.
  induction 1 as [|fi rest Hfi _ IH]; intros d.
  - split; constructor.
  - rewrite rename_pass_cons. cbn [fst snd].
    destruct (rename_file_skip w a b d fi Hfi) as [-> Hq].
    destruct (IH d) as [-> Hqs]. split; [reflexivity|now constructor].
Qed.

(** A run in which the loop body never decides to rename leaves the
    directory as it is. *)
Lemma run_all_skip S a b w :
  (forall fi new, In fi (files_of w) -> decide a b fi <> do_rename new) ->
  final (run S a b w) = entries w /\ Forall quiet (output (run S a b w)).
Proof.
  intros Hskip.
  assert (Hq := proj1 (Forall_forall quiet (output (run S a b w)))).
  split.
  - destruct (scan_fault w) as [k|] eqn:Hf.
    + now rewrite (run_fault S a b w k Hf).
    + assert (Hcase : files_of w = [] \/ files_of w <> [])
        by (destruct (files_of w); [left; reflexivity|right; discriminate]).
      destruct Hcase as [He|Hne].
      * now rewrite (run_empty S a b w Hf He).
      * rewrite (run_pass S a b w Hf Hne). cbn [final]. unfold pass_of.
        apply rename_pass_skip, Forall_forall. intros fi Hfi new.
        apply Hskip.
        eapply Permutation_in; [apply Permutation_sym, sort_files_perm|].
        eassumption.
  - apply Forall_forall. intros m Hm old new Hc.
    destruct (run_rename_call S a b w m old new Hm Hc) as (fi & Hfi & _ & Hd).
    exact (Hskip fi new Hfi Hd).
Qed.

(** C2, as stated, fails: with offset 0 the file [007.txt] is renamed
    to [7.txt]. *)
Lemma offset_zero_renames_padded :
  In (renamed "007.txt" "7.txt")
     (output (run insertion_sorter 0 0 padded_world)) /\
  final (run insertion_sorter 0 0 padded_world) <> entries padded_world.
Proof.
  split.
  - vm_compute. tauto.
  - vm_compute. discriminate.
Qed.

(** C2 (amended): with offset 0 the non-negativity rule never fires,
    and a matched file that passes the minimum reaches the
    identical-name skip exactly when its digit run is written without
    leading zeros; a digit run with leading zeros is renamed to the
    number without them.  In a directory whose matched files are all
    written without leading zeros a run with offset 0 renames nothing,
    and neither does a second run. *)
Theorem offset_zero_skips S b w :
  (forall fi, In fi (files_of w) ->
     (number fi < b /\ decide 0 b fi = do_skip_below_b) \/
     (b <= number fi /\
      canonical_name (filename (original_path fi)) = true /\
      decide 0 b fi = do_skip_identical) \/
     (b <= number fi /\
      canonical_name (filename (original_path fi)) = false /\
      decide 0 b fi =
        do_rename (to_string (number fi) ++ "." ++ extension fi))) /\
  ((forall fi, In fi (files_of w) ->
      canonical_name (filename (original_path fi)) = true) ->
   final (run S 0 b w) = entries w /\
   Forall quiet (output (run S 0 b w)) /\
   final (run S 0 b (with_entries w (final (run S 0 b w)))) = entries w).
Proof.
  assert (Hfile : forall fi, In fi (files_of w) ->
     (number fi < b /\ decide 0 b fi = do_skip_below_b) \/
     (b <= number fi /\
      canonical_name (filename (original_path fi)) = true /\
      decide 0 b fi = do_skip_identical) \/
     (b <= number fi /\
      canonical_name (filename (original_path fi)) = false /\
      decide 0 b fi =
        do_rename (to_string (number fi) ++ "." ++ extension fi))).
  { intros fi Hfi. apply files_of_matched in Hfi.
    pose proof (matched_number _ _ _ Hfi) as Hrange.
    destruct (matched_new_name_zero _ _ _ Hfi) as [E Hcanon].
    destruct (decide_cases 0 b fi)
      as [[H1 H2]|[(H1 & H2 & _)|[(H1 & _ & H3 & H4)|(H1 & _ & H3 & H4)]]].
    - left; auto.
    - rewrite E in H2. lia.
    - right; left. repeat split; auto. now apply Hcanon.
    - right; right. repeat split; auto.
      + destruct (canonical_name (filename (original_path fi))); auto.
        now destruct H3; apply Hcanon.
      + rewrite H4. unfold new_name. now rewrite E. }
  split; [exact Hfile|].
  intros Hcanon.
  assert (Hskip : forall w', entries w' = entries w ->
                             current_path w' = current_path w ->
            final (run S 0 b w') = entries w' /\
            Forall quiet (output (run S 0 b w'))).
  { intros w' He Hc. apply run_all_skip. intros fi new Hfi Hd.
    assert (Hfi' : In fi (files_of w))
      by (unfold files_of in *; now rewrite <- He, <- Hc).
    destruct (Hfile fi Hfi')
      as [[_ H]|[(_ & _ & H)|(_ & H & _)]]; try congruence.
    rewrite (Hcanon fi Hfi') in H. discriminate. }
  destruct (Hskip w eq_refl eq_refl) as [Hfin Hquiet].
  split; [exact Hfin|]. split; [exact Hquiet|].
  rewrite Hfin.
  now destruct (Hskip (with_entries w (entries w)) eq_refl eq_refl).
Qed.

Lemma offset_zero_skips_witness :
  final (run insertion_sorter 0 0 scenario_A) = entries scenario_A.
Proof.
  destruct (offset_zero_skips insertion_sorter 0 scenario_A) as [_ H].
  apply H. intros fi [<-|[<-|[]]]; reflexivity.
Defined.

(** ** What a call of [fs::rename] says about its file *)

Lemma run_rename_call_inv S a b w m old new :
  In m (output (run S a b w)) -> rename_call m old new ->
  exists digits ext n,
    regex_match old = Some (digits, ext) /\
    stoi digits = stoi_ok n /\
    b <= n /\
    0 <= int_add n a <= INT_MAX /\
    new = to_string (int_add n a) ++ "." ++ ext /\
    old <> new.
Proof.
  intros Hin Hc.
  destruct (run_rename_call S a b w m old new Hin Hc) as (fi & Hfi & <- & Hd).
  apply files_of_matched in Hfi as (nd & digits & _ & _ & Hm & Hs & _).
  apply decide_rename_inv in Hd as (Hb & H0 & -> & Hneq).
  exists digits, (extension fi), (number fi).
  pose proof (int_add_in_int (number fi) a) as [_ Hmax].
  repeat split; auto.
Qed.

Lemma main_output S stdin w m :
  In m (output (main S stdin w)) ->
  m = invalid_input_a \/ m = invalid_input_b \/
  exists a b rest rest',
    istream_int stdin = (Some a, rest) /\
    istream_int rest = (Some b, rest') /\
    main S stdin w = run S a b w.
Proof.
  unfold main.
  destruct (istream_int stdin) as [[a|] rest] eqn:Ea.
  - destruct (istream_int rest) as [[b|] rest'] eqn:Eb.
    + intros _. right; right. exists a, b, rest, rest'. auto.
    + simpl. intuition.
  - simpl. intuition.
Qed.

Lemma new_name_matches n ext :
  0 <= n <= INT_MAX -> ext <> EmptyString ->
  string_forallb any_char ext = true ->
  regex_match (to_string n ++ "." ++ ext) = Some (to_string n, ext) /\
  stoi (to_string n) = stoi_ok n.
Proof.
  intros Hn He Hany. split.
  - apply regex_match_intro; auto. apply to_string_digits; lia.
  - now apply stoi_to_string.
Qed.

(** C3: for every call of [fs::rename] of a run of the program, the
    number in front of the new name is the original number plus the
    offset, computed over the integers, and that sum is not negative:
    a file whose new number would be negative is never renamed. *)
Theorem renamed_number_exact S stdin w m old new :
  In m (output (main S stdin w)) -> rename_call m old new ->
  exists a b rest rest' digits ext n,
    istream_int stdin = (Some a, rest) /\
    istream_int rest = (Some b, rest') /\
    regex_match old = Some (digits, ext) /\
    stoi digits = stoi_ok n /\
    0 <= n + a /\
    new = to_string (n + a) ++ "." ++ ext /\
    number_of_name new = Some (n + a).
Proof.
  intros Hin Hc.
  destruct (main_output S stdin w m Hin)
    as [->|[->|(a & b & rest & rest' & Ea & Eb & Hrun)]];
    try (destruct Hc; discriminate).
  rewrite Hrun in Hin.
  destruct (run_rename_call_inv S a b w m old new Hin Hc)
    as (digits & ext & n & Hm & Hs & _ & Hrange & -> & _).
  pose proof (stoi_ok_inv _ _ Hs) as (_ & Hn & _).
  pose proof (istream_int_in_int _ _ _ Ea) as Ha.
  assert (E : int_add n a = n + a) by (apply int_add_nonneg; tauto).
  rewrite E in *.
  destruct (regex_match_inv _ _ _ Hm) as (_ & _ & He & Hany).
  destruct (new_name_matches (n + a) ext Hrange He Hany) as [Hm' Hs'].
  exists a, b, rest, rest', digits, ext, n.
  repeat split; auto; try tauto.
  unfold number_of_name. now rewrite Hm', Hs'.
Qed.

Lemma renamed_number_exact_witness :
  exists a b rest rest' digits ext n,
    istream_int "2 0" = (Some a, rest) /\
    istream_int rest = (Some b, rest') /\
    regex_match "5.txt" = Some (digits, ext) /\
    stoi digits = stoi_ok n /\
    0 <= n + a /\
    "7.txt" = to_string (n + a) ++ "." ++ ext /\
    number_of_name "7.txt" = Some (n + a).
Proof.
  apply (renamed_number_exact insertion_sorter "2 0" scenario_A
           (renamed "5.txt" "7.txt")).
  - vm_compute. tauto.
  - left. reflexivity.
Defined.

(** C5: a matched file whose number is below the minimum is never
    renamed, whatever the offset: the loop body skips it on its first
    test, no call of [fs::rename] has it as its source, and the run
    reports the skip. *)
Theorem below_minimum_never_renamed S a b w fi :
  In fi (files_of w) -> number fi < b ->
  decide a b fi = do_skip_below_b /\
  (forall m new, In m (output (run S a b w)) ->
                 ~ rename_call m (filename (original_path fi)) new) /\
  (scan_fault w = None ->
   In (skip_below_b (filename (original_path fi)) (number fi) b)
      (output (run S a b w))).
Proof.
  intros Hfi Hlt.
  assert (Hd : decide a b fi = do_skip_below_b).
  { unfold decide. apply Z.ltb_lt in Hlt. now rewrite Hlt. }
  split; [exact Hd|]. split.
  - intros m new Hin Hc.
    destruct (run_rename_call_inv S a b w m _ new Hin Hc)
      as (digits & ext & n & Hm & Hs & Hb & _).
    apply files_of_matched in Hfi.
    pose proof (matched_number_of_name _ _ _ Hfi) as Hn.
    unfold number_of_name in Hn. rewrite Hm, Hs in Hn.
    injection Hn as ->. lia.
  - intros Hf.
    assert (Hne : files_of w <> []) by (intros E; rewrite E in Hfi; destruct Hfi).
    rewrite (run_pass S a b w Hf Hne). cbn [output].
    right. apply in_or_app. right. right. apply in_or_app. left.
    assert (Hs : In fi (sort_files S a (files_of w)))
      by (eapply Permutation_in; [apply sort_files_perm|exact Hfi]).
    destruct (Forall2_In_l _ _ _ _
                (rename_pass_reports w a b _ (entries w)) Hs)
      as (m & Hm & Hr).
    unfold reports in Hr. rewrite Hd in Hr. now subst m.
Qed.

Lemma below_minimum_never_renamed_witness :
  In (skip_below_b "2.txt" 2 5) (output (run insertion_sorter 1 5 scenario_C)).
Proof.
  refine (proj2 (proj2 (below_minimum_never_renamed insertion_sorter 1 5
            scenario_C
            {| number := 2; original_path := path_append "/work" "2.txt";
               extension := "txt" |} _ _)) eq_refl).
  - left. reflexivity.
  - simpl. lia.
Defined.

(** C9: the target of every call of [fs::rename] has the shape
    NUMBER.EXTENSION: the decimal rendering, without leading zeros, of
    an [int] that is not negative, a dot, and the non-empty extension
    of the source.  A later scan matches a regular file of that name
    and reads the same number and extension back. *)
Theorem new_name_well_formed S a b w m old new :
  In m (output (run S a b w)) -> rename_call m old new ->
  exists n ext,
    0 <= n <= INT_MAX /\
    new = to_string n ++ "." ++ ext /\
    digit_string (to_string n) /\
    no_leading_zero (to_string n) = true /\
    ext <> EmptyString /\
    (exists digits, regex_match old = Some (digits, ext)) /\
    regex_match new = Some (to_string n, ext) /\
    stoi (to_string n) = stoi_ok n /\
    forall cwd nd,
      is_regular_file nd = true ->
      scan_entry cwd (new, nd) =
      ([{| number := n; original_path := path_append cwd new;
           extension := ext |}], []).
Proof.
  intros Hin Hc.
  destruct (run_rename_call_inv S a b w m old new Hin Hc)
    as (digits & ext & n & Hm & Hs & _ & Hrange & -> & _).
  destruct (regex_match_inv _ _ _ Hm) as (_ & _ & He & Hany).
  destruct (new_name_matches _ ext Hrange He Hany) as [Hm' Hs'].
  exists (int_add n a), ext.
  split; [exact Hrange|]. split; [reflexivity|].
  split; [apply to_string_digits; lia|].
  split; [apply to_string_no_leading_zero; lia|].
  split; [exact He|]. split; [eauto|].
  split; [exact Hm'|]. split; [exact Hs'|].
  intros cwd nd Hreg. unfold scan_entry. now rewrite Hreg, Hm', Hs'.
Qed.

Lemma new_name_well_formed_witness :
  exists n ext,
    0 <= n <= INT_MAX /\
    "10.txt" = to_string n ++ "." ++ ext /\
    digit_string (to_string n) /\
    no_leading_zero (to_string n) = true /\
    ext <> EmptyString /\
    (exists digits, regex_match "9.txt" = Some (digits, ext)) /\
    regex_match "10.txt" = Some (to_string n, ext) /\
    stoi (to_string n) = stoi_ok n /\
    forall cwd nd,
      is_regular_file nd = true ->
      scan_entry cwd ("10.txt", nd) =
      ([{| number := n; original_path := path_append cwd "10.txt";
           extension := ext |}], []).
Proof.
  apply (new_name_well_formed insertion_sorter 1 5 scenario_C
           (renamed "9.txt" "10.txt") "9.txt" "10.txt").
  - vm_compute. tauto.
  - left. reflexivity.
Defined.

(** ** Fatal failures *)

(** C4: when the offset or the minimum cannot be read, or the
    enumeration of the directory throws, the program exits with
    status 1 and has called [fs::rename] for no file: the directory
    is as it was. *)
Theorem fatal_failure_is_atomic S stdin w :
  fst (istream_int stdin) = None \/
  (exists a rest, istream_int stdin = (Some a, rest) /\
                  fst (istream_int rest) = None) \/
  scan_fault w <> None ->
  exit_code (main S stdin w) = 1 /\
  exit_code (main S stdin w) <> 0 /\
  final (main S stdin w) = entries w /\
  Forall quiet (output (main S stdin w)).
Proof.
  assert (Hq : forall m, (forall o n, m <> renamed o n) ->
                         (forall o n, m <> error_renaming o n) -> quiet m).
  { intros m H1 H2 old new [E|E]; [eapply H1|eapply H2]; eassumption. }
  assert (Hfault : forall a b, scan_fault w <> None ->
            exit_code (run S a b w) = 1 /\
            exit_code (run S a b w) <> 0 /\
            final (run S a b w) = entries w /\
            Forall quiet (output (run S a b w))).
  { intros a b Hf. destruct (scan_fault w) as [k|] eqn:E; [|congruence].
    rewrite (run_fault S a b w k E). cbn.
    repeat split; try lia.
    constructor; [apply Hq; discriminate|].
    apply Forall_app; split; [apply scan_quiet|].
    constructor; [apply Hq; discriminate|constructor]. }
  intros H. unfold main.
  destruct (istream_int stdin) as [[a|] rest] eqn:Ea.
  - destruct (istream_int rest) as [[b|] rest'] eqn:Eb.
    + destruct H as [H|[(a' & rest0 & E & H)|H]].
      * discriminate H.
      * injection E as <- <-. rewrite Eb in H. discriminate H.
      * now apply Hfault.
    + cbn. repeat split; try lia.
      constructor; [apply Hq; discriminate|constructor].
  - cbn. repeat split; try lia.
    constructor; [apply Hq; discriminate|constructor].
Qed.

Lemma fatal_failure_is_atomic_witness :
  exit_code (main insertion_sorter "two 0" scenario_A) = 1 /\
  exit_code (main insertion_sorter "two 0" scenario_A) <> 0 /\
  final (main insertion_sorter "two 0" scenario_A) = entries scenario_A /\
  Forall quiet (output (main insertion_sorter "two 0" scenario_A)).
Proof.
  apply (fatal_failure_is_atomic insertion_sorter "two 0" scenario_A).
  left. reflexivity.
Defined.

(** ** The skip rules *)

(** C6: the loop body tests, in this order, [number < minimum], then
    [newNumber < 0], then whether the new name is the old one; the
    first test that holds decides the skip, and [fs::rename] is called
    only when none holds.  Every line of the rename pass reports the
    decision for the file at the same position of the sorted list. *)
Theorem skip_rules_in_order S a b w :
  (forall fi,
     (decide a b fi = do_skip_below_b <-> number fi < b) /\
     (forall k,
        decide a b fi = do_skip_negative k <->
        b <= number fi /\ k = int_add (number fi) a /\ k < 0) /\
     (decide a b fi = do_skip_identical <->
      b <= number fi /\ 0 <= int_add (number fi) a /\
      filename (original_path fi) = new_name a fi) /\
     (forall new,
        decide a b fi = do_rename new <->
        b <= number fi /\ 0 <= int_add (number fi) a /\
        filename (original_path fi) <> new_name a fi /\
        new = new_name a fi)) /\
  (forall d files,
     Forall2 (reports a b) files (snd (rename_pass w a b d files))) /\
  (scan_fault w = None -> files_of w <> [] ->
   exists pre,
     output (run S a b w) = (pre ++ snd (pass_of S a b w) ++ [complete])%list /\
     Forall quiet pre /\
     Forall2 (reports a b) (sort_files S a (files_of w))
             (snd (pass_of S a b w))).
Proof.
  split; [|split].
  - intros fi.
    destruct (decide_cases a b fi)
      as [[H1 E]|[(H1 & H2 & E)|[(H1 & H2 & H3 & E)|(H1 & H2 & H3 & E)]]];
      rewrite E;
      (split; [|split; [|split]]);
      try (intros k); (split; [intros H|intros H]);
      try discriminate; try lia; try tauto;
      try (injection H as <-; tauto);
      try (destruct H as (? & -> & ?); try reflexivity; lia).
    destruct H as (_ & _ & _ & ->). reflexivity.
  - intros d files. apply rename_pass_reports.
  - intros Hf Hne. rewrite (run_pass S a b w Hf Hne). cbn [output].
    exists (searching (current_path w)
              :: snd (scan (current_path w) (entries w))
              ++ [if 0 <=? a then sorting_descending else sorting_ascending])%list.
    split; [simpl; f_equal; now rewrite <- List.app_assoc|].
    split; [|apply rename_pass_reports].
    constructor; [intros old new [E|E]; discriminate|].
    apply Forall_app; split; [apply scan_quiet|].
    constructor; [apply quiet_note|constructor].
Qed.

Lemma skip_rules_in_order_witness :
  exists pre,
    output (run insertion_sorter 1 5 scenario_C) =
      (pre ++ snd (pass_of insertion_sorter 1 5 scenario_C) ++ [complete])%list /\
    Forall quiet pre /\
    Forall2 (reports 1 5)
            (sort_files insertion_sorter 1 (files_of scenario_C))
            (snd (pass_of insertion_sorter 1 5 scenario_C)).
Proof.
  apply (skip_rules_in_order insertion_sorter 1 5 scenario_C).
  - reflexivity.
  - discriminate.
Defined.

(** ** Failures that concern one file *)

Lemma scan_entry_overflow cwd name nd digits ext :
  is_regular_file nd = true ->
  regex_match name = Some (digits, ext) ->
  stoi digits = stoi_out_of_range ->
  scan_entry cwd (name, nd) = ([], [warn_out_of_range name]).
Proof. intros Hr Hm Hs. unfold scan_entry. now rewrite Hr, Hm, Hs. Qed.

Lemma scan_In_messages cwd es name nd digits ext :
  In (name, nd) es ->
  is_regular_file nd = true ->
  regex_match name = Some (digits, ext) ->
  stoi digits = stoi_out_of_range ->
  In (warn_out_of_range name) (snd (scan cwd es)).
Proof.
  intros Hin Hr Hm Hs.
  apply in_split in Hin as (es1 & es2 & ->).
  rewrite scan_app, scan_cons,
    (scan_entry_overflow cwd name nd digits ext Hr Hm Hs).
  cbn [fst snd]. apply in_or_app. right. now left.
Qed.

(** Without a fault of the enumeration the program exits with status
    0, and every file of the scan gets its line. *)
Lemma run_reports_all S a b w :
  scan_fault w = None ->
  exit_code (run S a b w) = 0 /\
  forall fi, In fi (files_of w) ->
             exists m, In m (output (run S a b w)) /\ reports a b fi m.
Proof.
  intros Hf.
  assert (Hcase : files_of w = [] \/ files_of w <> [])
    by (destruct (files_of w); [left; reflexivity|right; discriminate]).
  destruct Hcase as [He|Hne].
  - rewrite (run_empty S a b w Hf He). split; [reflexivity|].
    rewrite He. intros fi [].
  - rewrite (run_pass S a b w Hf Hne). split; [reflexivity|].
    intros fi Hfi. cbn [output].
    assert (Hs : In fi (sort_files S a (files_of w)))
      by (eapply Permutation_in; [apply sort_files_perm|exact Hfi]).
    destruct (Forall2_In_l _ _ _ _
                (rename_pass_reports w a b _ (entries w)) Hs)
      as (m & Hm & Hr).
    exists m. split; [|exact Hr].
    right. apply in_or_app. right. right. apply in_or_app. now left.
Qed.

(** C7: a digit run that does not fit in an [int] and a failing
    [fs::rename] each concern one file only.  The scan prints a
    warning on [cerr] for the first, adds nothing to the vector and
    goes on with the other entries; the rename pass prints an error on
    [cerr] for the second, leaves the directory as it is and goes on
    with the other files.  Neither ends the program: without a fault
    of the enumeration it exits with status 0 after a line for every
    file of the scan. *)
Theorem per_file_failures_recoverable S a b w :
  (forall cwd es1 es2 name nd digits ext,
     is_regular_file nd = true ->
     regex_match name = Some (digits, ext) ->
     stoi digits = stoi_out_of_range ->
     scan cwd (es1 ++ (name, nd) :: es2)%list =
     ((fst (scan cwd es1) ++ fst (scan cwd es2))%list,
      (snd (scan cwd es1) ++ warn_out_of_range name
         :: snd (scan cwd es2))%list) /\
     stream_of (warn_out_of_range name) = cerr) /\
  (forall d fi rest new,
     decide a b fi = do_rename new ->
     fs_rename w d (original_path fi)
       (path_append (parent_path (original_path fi)) new) = None ->
     rename_pass w a b d (fi :: rest) =
     (fst (rename_pass w a b d rest),
      error_renaming (filename (original_path fi)) new
        :: snd (rename_pass w a b d rest)) /\
     stream_of (error_renaming (filename (original_path fi)) new) = cerr) /\
  (scan_fault w = None ->
   exit_code (run S a b w) = 0 /\
   (forall fi, In fi (files_of w) ->
      exists m, In m (output (run S a b w)) /\ reports a b fi m) /\
   (forall name nd digits ext,
      In (name, nd) (entries w) ->
      is_regular_file nd = true ->
      regex_match name = Some (digits, ext) ->
      stoi digits = stoi_out_of_range ->
      In (warn_out_of_range name) (output (run S a b w)))).
Proof.
  split; [|split].
  - intros cwd es1 es2 name nd digits ext Hr Hm Hs.
    split; [|reflexivity].
    rewrite scan_app, scan_cons,
      (scan_entry_overflow cwd name nd digits ext Hr Hm Hs).
    reflexivity.
  - intros d fi rest new Hd Hfail. split; [|reflexivity].
    rewrite rename_pass_cons. unfold rename_file. rewrite Hd, Hfail.
    reflexivity.
  - intros Hf. destruct (run_reports_all S a b w Hf) as [Hexit Hall].
    split; [exact Hexit|]. split; [exact Hall|].
    intros name nd digits ext Hin Hr Hm Hs.
    pose proof (scan_In_messages (current_path w) _ _ _ _ _ Hin Hr Hm Hs)
      as Hw.
    assert (Hcase : files_of w = [] \/ files_of w <> [])
      by (destruct (files_of w); [left; reflexivity|right; discriminate]).
    destruct Hcase as [He|Hne].
    + rewrite (run_empty S a b w Hf He). cbn [output].
      right. apply in_or_app. now left.
    + rewrite (run_pass S a b w Hf Hne). cbn [output].
      right. apply in_or_app. now left.
Qed.

Lemma per_file_failures_recoverable_witness :
  (exit_code (run insertion_sorter 1 0 overflow_world) = 0 /\
   In (warn_out_of_range "99999999999.txt")
      (output (run insertion_sorter 1 0 overflow_world)) /\
   In (renamed "5.txt" "6.txt")
      (output (run insertion_sorter 1 0 overflow_world))) /\
  (exit_code (run insertion_sorter 1 0 blocked_world) = 0 /\
   In (error_renaming "5.txt" "6.txt")
      (output (run insertion_sorter 1 0 blocked_world)) /\
   In (renamed "3.txt" "4.txt")
      (output (run insertion_sorter 1 0 blocked_world))).
Proof.
  split.
  - destruct (per_file_failures_recoverable insertion_sorter 1 0 overflow_world)
      as (_ & _ & H).
    destruct (H eq_refl) as (Hexit & _ & Hwarn).
    split; [exact Hexit|]. split.
    + apply (Hwarn "99999999999.txt" (plain "big") "99999999999" "txt");
        try reflexivity. left. reflexivity.
    + vm_compute. tauto.
  - destruct (per_file_failures_recoverable insertion_sorter 1 0 blocked_world)
      as (_ & _ & H).
    destruct (H eq_refl) as (Hexit & _ & _).
    split; [exact Hexit|]. split; vm_compute; tauto.
Defined.

(** ** What a run does to the directory *)

Lemma lookup_relabel_other old new name d :
  name <> old -> name <> new ->
  lookup name (relabel old new d) = lookup name d.
Proof.
  intros Ho Hn. induction d as [|[k n] t IH]; simpl; [reflexivity|].
  destruct (String.eqb_spec k old) as [->|Hk]; simpl.
  - destruct (String.eqb_spec new name); [congruence|].
    destruct (String.eqb_spec old name); [congruence|]. exact IH.
  - now rewrite IH.
Qed.

Lemma lookup_unlink_other new name d :
  name <> new -> lookup name (unlink new d) = lookup name d.
Proof.
  intros Hn. induction d as [|[k n] t IH]; simpl; [reflexivity|].
  destruct (String.eqb_spec k new) as [->|Hk]; simpl.
  - destruct (String.eqb_spec new name); [congruence|]. exact IH.
  - now rewrite IH.
Qed.

Lemma relabel_nodes old new d name nd :
  In (name, nd) (relabel old new d) -> exists name0, In (name0, nd) d.
Proof.
  unfold relabel. rewrite in_map_iff. intros ([k n] & E & Hin).
  simpl in E. destruct (String.eqb k old); injection E as <- <-; eauto.
Qed.

Lemma unlink_incl new d : incl (unlink new d) d.
Proof. intros e He. unfold unlink in He. now apply filter_In in He. Qed.

Lemma relabel_length old new d : List.length (relabel old new d) = List.length d.
Proof. apply length_map. Qed.

Lemma unlink_length new d : (List.length (unlink new d) <= List.length d)%nat.
Proof. apply filter_length_le. Qed.

Section Frame.

Variables (w : world) (a b : Z).

Lemma fs_rename_frame d d' old_p new_p name :
  fs_rename w d old_p new_p = Some d' ->
  name <> filename old_p -> name <> filename new_p ->
  lookup name d' = lookup name d.
Proof.
  unfold fs_rename. intros H Ho Hn.
  destruct (negb _); [discriminate|].
  destruct (lookup (filename old_p) d) as [n|]; [|discriminate].
  destruct (rename_denied w _ _); [discriminate|].
  destruct (String.eqb _ _); [now injection H as <-|].
  destruct (lookup (filename new_p) d) as [m|].
  - destruct (same_file n m); [now injection H as <-|].
    destruct (is_directory n || is_directory m); [discriminate|].
    injection H as <-.
    now rewrite lookup_relabel_other, lookup_unlink_other.
  - injection H as <-. now apply lookup_relabel_other.
Qed.

Lemma fs_rename_nodes d d' old_p new_p :
  fs_rename w d old_p new_p = Some d' ->
  (forall name nd, In (name, nd) d' -> exists name0, In (name0, nd) d) /\
  (List.length d' <= List.length d)%nat.
Proof.
  unfold fs_rename. intros H.
  destruct (negb _); [discriminate|].
  destruct (lookup (filename old_p) d) as [n|]; [|discriminate].
  destruct (rename_denied w _ _); [discriminate|].
  destruct (String.eqb _ _); [injection H as <-; eauto|].
  destruct (lookup (filename new_p) d) as [m|].
  - destruct (same_file n m); [injection H as <-; eauto|].
    destruct (is_directory n || is_directory m); [discriminate|].
    injection H as <-. split.
    + intros name nd Hin. apply relabel_nodes in Hin as [name0 Hin].
      exists name0. now apply (unlink_incl (filename new_p)).
    + rewrite relabel_length. apply unlink_length.
  - injection H as <-. split.
    + intros name nd Hin. now apply relabel_nodes in Hin.
    + now rewrite relabel_length.
Qed.

(** The directory changes in one iteration only when the iteration
    prints [renamed], and then only at the two names it prints. *)
Lemma rename_file_frame d fi name :
  (forall old new, snd (rename_file w a b d fi) = renamed old new ->
                   name <> old /\ name <> new) ->
  lookup name (fst (rename_file w a b d fi)) = lookup name d.
Proof.
  unfold rename_file.
  destruct (decide a b fi) as [| | |new]; simpl; try reflexivity.
  destruct (fs_rename _ _ _ _) as [d'|] eqn:E; simpl; [|reflexivity].
  intros H. destruct (H _ _ eq_refl) as [Ho Hn].
  now apply (fs_rename_frame _ _ _ _ _ E).
Qed.

Lemma rename_file_nodes d fi :
  (forall name nd, In (name, nd) (fst (rename_file w a b d fi)) ->
                   exists name0, In (name0, nd) d) /\
  (List.length (fst (rename_file w a b d fi)) <= List.length d)%nat.
Proof.
  unfold rename_file.
  destruct (decide a b fi) as [| | |new]; simpl; eauto.
  destruct (fs_rename _ _ _ _) as [d'|] eqn:E; simpl; eauto.
  now apply fs_rename_nodes in E.
Qed.

Lemma rename_pass_frame files name :
  forall d,
    (forall old new, In (renamed old new) (snd (rename_pass w a b d files)) ->
                     name <> old /\ name <> new) ->
    lookup name (fst (rename_pass w a b d files)) = lookup name d.
Proof.
  induction files as [|fi rest IH]; intros d H; [reflexivity|].
  rewrite rename_pass_cons in *. cbn [fst snd] in *.
  rewrite IH.
  - apply rename_file_frame. intros old new E. apply H. left. exact E.
  - intros old new Hin. apply H. right. exact Hin.
Qed.

Lemma rename_pass_nodes files :
  forall d,
    (forall name nd, In (name, nd) (fst (rename_pass w a b d files)) ->
                     exists name0, In (name0, nd) d) /\
    (List.length (fst (rename_pass w a b d files)) <= List.length d)%nat.
Proof.
  induction files as [|fi rest IH]; intros d; [simpl; eauto|].
  rewrite rename_pass_cons. cbn [fst].
  destruct (IH (fst (rename_file w a b d fi))) as [IH1 IH2].
  destruct (rename_file_nodes d fi) as [H1 H2].
  split; [|lia].
  intros name nd Hin. apply IH1 in Hin as [name1 Hin]. eauto.
Qed.

End Frame.

(** *** A successful rename, name by name *)

Lemma lookup_None name d :
  lookup name d = None <-> ~ In name (map fst d).
Proof.
  induction d as [|[k n] t IH]; simpl; [tauto|].
  destruct (String.eqb_spec k name) as [->|Hk].
  - split; [discriminate|]. intros H. exfalso. apply H. now left.
  - rewrite IH. tauto.
Qed.

Lemma lookup_unlink_same new d : lookup new (unlink new d) = None.
Proof.
  induction d as [|[k n] t IH]; simpl; [reflexivity|].
  destruct (String.eqb_spec k new) as [->|Hk]; simpl; [exact IH|].
  destruct (String.eqb_spec k new); [congruence|exact IH].
Qed.

Lemma lookup_relabel_fresh old new d name :
  old <> new -> lookup new d = None ->
  lookup name (relabel old new d) =
  if String.eqb name new then lookup old d
  else if String.eqb name old then None
  else lookup name d.
Proof.
  intros Hon. induction d as [|[k n] t IH]; simpl; intros Hnew.
  - now destruct (String.eqb name new), (String.eqb name old).
  - destruct (String.eqb_spec k new) as [->|Hkn]; [discriminate|].
    specialize (IH Hnew).
    destruct (String.eqb_spec k old) as [->|Hko]; simpl.
    + destruct (String.eqb_spec new name) as [<-|Hn].
      * now rewrite String.eqb_refl.
      * rewrite IH.
        destruct (String.eqb_spec name new); [congruence|].
        destruct (String.eqb_spec name old) as [->|Ho].
        -- reflexivity.
        -- destruct (String.eqb_spec old name); [congruence|reflexivity].
    + destruct (String.eqb_spec k name) as [<-|Hk].
      * destruct (String.eqb_spec k new); [congruence|].
        destruct (String.eqb_spec k old); [congruence|reflexivity].
      * rewrite IH.
        destruct (String.eqb_spec name new); [reflexivity|].
        destruct (String.eqb_spec name old); reflexivity.
Qed.

Lemma same_file_refl n : same_file n n = true.
Proof. apply String.eqb_refl. Qed.

Lemma fs_rename_view w d p q d' :
  fs_rename w d p q = Some d' ->
  forall name,
    view_of d' name = move (filename p) (filename q) (view_of d) name.
Proof.
  unfold fs_rename, move, view_of. intros H name.
  destruct (negb _); [discriminate|].
  destruct (lookup (filename p) d) as [n|] eqn:Eo; [|discriminate].
  destruct (rename_denied w _ _); [discriminate|].
  destruct (String.eqb_spec (filename p) (filename q)) as [E|Hon].
  - injection H as <-. rewrite <- E, Eo. now rewrite same_file_refl.
  - destruct (lookup (filename q) d) as [m|] eqn:En.
    + destruct (same_file n m); [now injection H as <-|].
      destruct (is_directory n || is_directory m); [discriminate|].
      injection H as <-.
      rewrite (lookup_relabel_fresh _ _ _ _ Hon (lookup_unlink_same _ d)).
      rewrite (lookup_unlink_other (filename q) (filename p) d Hon), Eo.
      destruct (String.eqb_spec name (filename q)) as [->|Hn];
        [reflexivity|].
      destruct (String.eqb_spec name (filename p)); [reflexivity|].
      now apply lookup_unlink_other.
    + injection H as <-.
      now rewrite (lookup_relabel_fresh _ _ _ _ Hon En), Eo.
Qed.

Lemma move_ext old new f g :
  (forall k, f k = g k) -> forall name, move old new f name = move old new g name.
Proof. intros H name. unfold move. now rewrite !H. Qed.

Lemma replay_ext renames :
  forall f g, (forall k, f k = g k) ->
              forall name, replay renames f name = replay renames g name.
Proof.
  induction renames as [|[old new] rest IH]; intros f g H name; simpl.
  - apply H.
  - apply IH. now apply move_ext.
Qed.

Lemma replay_app r1 r2 f name :
  replay (r1 ++ r2)%list f name = replay r2 (replay r1 f) name.
Proof.
  revert f. induction r1 as [|[old new] rest IH]; intros f; simpl.
  - reflexivity.
  - apply IH.
Qed.

Lemma rename_file_view w a b d fi name :
  view_of (fst (rename_file w a b d fi)) name =
  replay (renames_of [snd (rename_file w a b d fi)]) (view_of d) name.
Proof.
  unfold rename_file.
  destruct (decide a b fi) as [| | |new]; simpl; try reflexivity.
  destruct (fs_rename _ _ _ _) as [d'|] eqn:E; simpl; [|reflexivity].
  now apply (fs_rename_view _ _ _ _ _ E).
Qed.

Lemma rename_pass_view w a b files name :
  forall d,
    view_of (fst (rename_pass w a b d files)) name =
    replay (renames_of (snd (rename_pass w a b d files))) (view_of d) name.
Proof.
  induction files as [|fi rest IH]; intros d; [reflexivity|].
  rewrite rename_pass_cons. cbn [fst snd].
  change (snd (rename_file w a b d fi)
            :: snd (rename_pass w a b (fst (rename_file w a b d fi)) rest))
    with ([snd (rename_file w a b d fi)]
            ++ snd (rename_pass w a b (fst (rename_file w a b d fi)) rest))%list.
  unfold renames_of at 1. rewrite flat_map_app.
  fold (renames_of [snd (rename_file w a b d fi)]).
  fold (renames_of (snd (rename_pass w a b (fst (rename_file w a b d fi)) rest))).
  rewrite replay_app, IH.
  apply replay_ext. intros k. apply rename_file_view.
Qed.

Lemma renames_of_quiet l : Forall quiet l -> renames_of l = [].
Proof.
  induction 1 as [|m l Hm _ IH]; [reflexivity|].
  unfold renames_of in *. simpl. rewrite IH.
  destruct m; try reflexivity.
  exfalso. eapply Hm. left. reflexivity.
Qed.

(** *** Names stay distinct *)

Lemma In_lookup (d : dirmap) k n :
  NoDup (map fst d) -> (In (k, n) d <-> lookup k d = Some n).
Proof.
  induction d as [|[k0 n0] t IH]; simpl; intros Hnd.
  - split; [tauto|discriminate].
  - inversion Hnd as [|? ? Hnotin Hnd']; subst.
    destruct (String.eqb_spec k0 k) as [->|Hk].
    + split.
      * intros [E|Hin]; [congruence|].
        exfalso. apply Hnotin, in_map_iff. exists (k, n). auto.
      * intros [= ->]. now left.
    + rewrite <- (IH Hnd'). split; [|tauto].
      intros [E|Hin]; [congruence|exact Hin].
Qed.

Lemma relabel_names old new d k :
  In k (map fst (relabel old new d)) -> k = new \/ In k (map fst d).
Proof.
  unfold relabel. rewrite map_map, !in_map_iff.
  intros ([k0 n0] & E & Hin). cbn [fst] in E.
  destruct (String.eqb k0 old); cbn [fst] in E; [now left|].
  right. exists (k0, n0). auto.
Qed.

Lemma relabel_absent old new d :
  ~ In old (map fst d) -> relabel old new d = d.
Proof.
  intros H. unfold relabel. rewrite <- (map_id d) at 2.
  apply map_ext_in. intros [k n] Hin. cbn [fst].
  destruct (String.eqb_spec k old) as [->|_]; [|reflexivity].
  exfalso. apply H, in_map_iff. exists (old, n). auto.
Qed.

Lemma relabel_NoDup old new d :
  NoDup (map fst d) -> ~ In new (map fst d) ->
  NoDup (map fst (relabel old new d)).
Proof.
  induction d as [|[k n] t IH]; simpl; intros Hnd Hnew; [constructor|].
  inversion Hnd as [|? ? Hnotin Hnd']; subst.
  destruct (String.eqb_spec k old) as [->|Hk]; cbn [fst].
  - fold (relabel old new t). rewrite (relabel_absent old new t Hnotin).
    constructor; [tauto|exact Hnd'].
  - fold (relabel old new t). constructor; [|apply IH; tauto].
    intros Hin. apply relabel_names in Hin as [->|Hin]; tauto.
Qed.

Lemma unlink_NoDup new d :
  NoDup (map fst d) ->
  NoDup (map fst (unlink new d)) /\ ~ In new (map fst (unlink new d)).
Proof.
  intros Hnd. split.
  - induction d as [|[k n] t IH]; simpl; [constructor|].
    inversion Hnd as [|? ? Hnotin Hnd']; subst.
    destruct (String.eqb k new); simpl; [now apply IH|].
    constructor; [|now apply IH].
    intros Hin. apply Hnotin.
    apply in_map_iff in Hin as (e & E & Hin).
    apply (unlink_incl new t) in Hin. apply in_map_iff. eauto.
  - intros Hin. apply in_map_iff in Hin as ([k n] & E & Hin).
    unfold unlink in Hin. apply filter_In in Hin as [_ Hk].
    cbn [fst] in *. subst k. now rewrite String.eqb_refl in Hk.
Qed.

Lemma fs_rename_NoDup w d p q d' :
  fs_rename w d p q = Some d' ->
  NoDup (map fst d) -> NoDup (map fst d').
Proof.
  unfold fs_rename. intros H Hnd.
  destruct (negb _); [discriminate|].
  destruct (lookup (filename p) d) as [n|]; [|discriminate].
  destruct (rename_denied w _ _); [discriminate|].
  destruct (String.eqb _ _); [now injection H as <-|].
  destruct (lookup (filename q) d) as [m|] eqn:En.
  - destruct (same_file n m); [now injection H as <-|].
    destruct (is_directory n || is_directory m); [discriminate|].
    injection H as <-.
    destruct (unlink_NoDup (filename q) d Hnd). now apply relabel_NoDup.
  - injection H as <-. apply relabel_NoDup; [exact Hnd|].
    now apply lookup_None.
Qed.

Lemma rename_pass_NoDup w a b files :
  forall d, NoDup (map fst d) ->
            NoDup (map fst (fst (rename_pass w a b d files))).
Proof.
  induction files as [|fi rest IH]; intros d Hnd; [exact Hnd|].
  rewrite rename_pass_cons. cbn [fst]. apply IH.
  unfold rename_file.
  destruct (decide a b fi) as [| | |new]; simpl; auto.
  destruct (fs_rename _ _ _ _) as [d'|] eqn:E; simpl; auto.
  now apply (fs_rename_NoDup _ _ _ _ _ E).
Qed.

(** C8, as stated, fails: with [2.txt] and [5.txt] and offset -3 the
    file [2.txt] is skipped (its new number would be -1) and never
    renamed, yet the rename of [5.txt] to [2.txt] replaces it: its
    contents are in the directory no more. *)
Lemma skipped_file_is_replaced :
  In (skip_negative "2.txt" (-1))
     (output (run insertion_sorter (-3) 0 clobber_world)) /\
  (forall m new,
     In m (output (run insertion_sorter (-3) 0 clobber_world)) ->
     ~ rename_call m "2.txt" new) /\
  lookup "2.txt" (entries clobber_world) = Some (plain "two") /\
  lookup "2.txt" (final (run insertion_sorter (-3) 0 clobber_world))
    = Some (plain "five") /\
  (forall name,
     ~ In (name, plain "two")
          (final (run insertion_sorter (-3) 0 clobber_world))).
Proof.
  split; [vm_compute; tauto|].
  split.
  - intros m new Hin [E|E]; subst m; vm_compute in Hin;
      repeat (destruct Hin as [Hin|Hin]; [discriminate Hin|]);
      destruct Hin.
  - split; [reflexivity|]. split; [reflexivity|].
    intros name Hin. vm_compute in Hin.
    destruct Hin as [Hin|[]]. discriminate Hin.
Qed.

(** The directory after a run is the directory before it with the
    successful renames of the output replayed in order. *)
Lemma run_view S a b w name :
  view_of (final (run S a b w)) name =
  replay (renames_of (output (run S a b w))) (view_of (entries w)) name.
Proof.
  assert (Hq : forall m, (forall o n, m <> renamed o n) -> renames_of [m] = [])
    by (intros m H; destruct m; try reflexivity; now destruct (H old new)).
  assert (Hedge : forall ws last,
            Forall quiet ws -> (forall o n, last <> renamed o n) ->
            renames_of (searching (current_path w) :: ws ++ [last])%list = []).
  { intros ws last Hws Hlast.
    change (searching (current_path w) :: ws ++ [last])%list
      with ([searching (current_path w)] ++ ws ++ [last])%list.
    unfold renames_of. rewrite !flat_map_app.
    fold (renames_of [searching (current_path w)]).
    fold (renames_of ws). fold (renames_of [last]).
    now rewrite (renames_of_quiet ws Hws), (Hq last Hlast). }
  destruct (scan_fault w) as [k|] eqn:Hf.
  { rewrite (run_fault S a b w k Hf). cbn [final output].
    rewrite Hedge; [reflexivity|apply scan_quiet|discriminate]. }
  assert (Hcase : files_of w = [] \/ files_of w <> [])
    by (destruct (files_of w); [left; reflexivity|right; discriminate]).
  destruct Hcase as [He|Hne].
  { rewrite (run_empty S a b w Hf He). cbn [final output].
    rewrite Hedge; [reflexivity|apply scan_quiet|discriminate]. }
  rewrite (run_pass S a b w Hf Hne). cbn [final output].
  set (note := if 0 <=? a then sorting_descending else sorting_ascending).
  change (searching (current_path w)
            :: snd (scan (current_path w) (entries w))
            ++ note :: snd (pass_of S a b w) ++ [complete])%list
    with ([searching (current_path w)]
            ++ snd (scan (current_path w) (entries w))
            ++ [note] ++ snd (pass_of S a b w) ++ [complete])%list.
  unfold renames_of. rewrite !flat_map_app.
  fold (renames_of [searching (current_path w)]).
  fold (renames_of (snd (scan (current_path w) (entries w)))).
  fold (renames_of [note]). fold (renames_of (snd (pass_of S a b w))).
  fold (renames_of [complete]).
  rewrite (renames_of_quiet _ (scan_quiet (current_path w) (entries w))).
  rewrite (Hq note) by (unfold note; destruct (0 <=? a); discriminate).
  cbn [app]. change (renames_of [complete]) with (@nil (string * string)).
  change (renames_of [searching (current_path w)])
    with (@nil (string * string)).
  cbn [app]. rewrite List.app_nil_r.
  apply rename_pass_view.
Qed.

Lemma run_NoDup S a b w :
  NoDup (map fst (entries w)) -> NoDup (map fst (final (run S a b w))).
Proof.
  intros Hnd. destruct (scan_fault w) as [k|] eqn:Hf.
  { now rewrite (run_fault S a b w k Hf). }
  assert (Hcase : files_of w = [] \/ files_of w <> [])
    by (destruct (files_of w); [left; reflexivity|right; discriminate]).
  destruct Hcase as [He|Hne].
  { now rewrite (run_empty S a b w Hf He). }
  rewrite (run_pass S a b w Hf Hne). cbn [final].
  now apply rename_pass_NoDup.
Qed.

(** C8 (amended): the only operation of a run on the directory is
    [fs::rename] on files of the scan, which live in the current
    directory.  The directory after the run is the directory before
    it with the successful renames replayed in order: each one puts
    the entry of its source, type and contents as they were, at the
    target name, removes the source name and leaves every other name
    as it was (and does nothing when both names lead to one file).
    So every name that is neither the source nor the target of a
    successful rename keeps its entry, or stays absent; no entry is
    created and none has its type or contents modified: each entry
    after the run is an entry from before the run, possibly under a
    new name, and there are no more entries than before.  The only
    entries lost are those that stood at the target name of a
    successful rename: they are replaced. *)
Theorem run_frame S a b w :
  (forall name,
     (forall old new, In (renamed old new) (output (run S a b w)) ->
                      name <> old /\ name <> new) ->
     lookup name (final (run S a b w)) = lookup name (entries w)) /\
  (forall name nd, In (name, nd) (final (run S a b w)) ->
                   exists name0, In (name0, nd) (entries w)) /\
  (List.length (final (run S a b w)) <= List.length (entries w))%nat /\
  (forall fi, In fi (files_of w) ->
              parent_path (original_path fi) = current_path w) /\
  (forall name,
     lookup name (final (run S a b w)) =
     replay (renames_of (output (run S a b w))) (view_of (entries w)) name) /\
  (NoDup (map fst (entries w)) ->
   NoDup (map fst (final (run S a b w))) /\
   forall name nd,
     In (name, nd) (final (run S a b w)) <->
     replay (renames_of (output (run S a b w))) (view_of (entries w)) name
       = Some nd).
Proof.
  assert (Hparent : forall fi, In fi (files_of w) ->
                      parent_path (original_path fi) = current_path w).
  { intros fi Hfi.
    now apply files_of_matched in Hfi as (_ & _ & _ & _ & _ & _ & Hp). }
  assert (Hview : forall name,
            lookup name (final (run S a b w)) =
            replay (renames_of (output (run S a b w)))
                   (view_of (entries w)) name)
    by (intros name; apply run_view).
  assert (Hnames : NoDup (map fst (entries w)) ->
            NoDup (map fst (final (run S a b w))) /\
            forall name nd,
              In (name, nd) (final (run S a b w)) <->
              replay (renames_of (output (run S a b w)))
                     (view_of (entries w)) name = Some nd).
  { intros Hnd. pose proof (run_NoDup S a b w Hnd) as Hnd'.
    split; [exact Hnd'|]. intros name nd.
    rewrite <- Hview. now apply In_lookup. }
  assert (Hrest : (forall name,
     (forall old new, In (renamed old new) (output (run S a b w)) ->
                      name <> old /\ name <> new) ->
     lookup name (final (run S a b w)) = lookup name (entries w)) /\
    (forall name nd, In (name, nd) (final (run S a b w)) ->
                     exists name0, In (name0, nd) (entries w)) /\
    (List.length (final (run S a b w)) <= List.length (entries w))%nat).
  { destruct (scan_fault w) as [k|] eqn:Hf.
    { rewrite (run_fault S a b w k Hf). cbn [final]. eauto. }
    assert (Hcase : files_of w = [] \/ files_of w <> [])
      by (destruct (files_of w); [left; reflexivity|right; discriminate]).
    destruct Hcase as [He|Hne].
    { rewrite (run_empty S a b w Hf He). cbn [final]. eauto. }
    rewrite (run_pass S a b w Hf Hne). cbn [final output]. unfold pass_of.
    destruct (rename_pass_nodes w a b (sort_files S a (files_of w))
                (entries w)) as [Hnodes Hlen].
    split; [|split; [exact Hnodes|exact Hlen]].
    intros name H. apply rename_pass_frame.
    intros old new Hin. apply H.
    right. apply in_or_app. right. right. apply in_or_app. now left. }
  destruct Hrest as (H1 & H2 & H3).
  repeat split; auto; now apply Hnames.
Qed.

Lemma run_frame_witness :
  NoDup (map fst (final (run insertion_sorter 1 5 scenario_C))) /\
  In ("10.txt", plain "nine") (final (run insertion_sorter 1 5 scenario_C)) /\
  In ("2.txt", plain "two") (final (run insertion_sorter 1 5 scenario_C)).
Proof.
  destruct (run_frame insertion_sorter 1 5 scenario_C)
    as (_ & _ & _ & _ & _ & H).
  destruct H as [Hnd Hin].
  - repeat constructor; simpl; intuition discriminate.
  - split; [exact Hnd|]. split; apply Hin; reflexivity.
Defined.

(** Two names of one file: the rename of [05.txt] to [5.txt] succeeds
    and changes nothing. *)
Example hard_link_run :
  run insertion_sorter 0 0
      (sample_world [("05.txt", link "five" "inode 7");
                     ("5.txt", link "five" "inode 7")]) =
  {| exit_code := 0;
     output := [searching "/work"; sorting_descending;
                skip_identical "5.txt"; renamed "05.txt" "5.txt"; complete];
     final := [("05.txt", link "five" "inode 7");
               ("5.txt", link "five" "inode 7")] |}.
Proof. reflexivity. Qed.

(** ** What the decision for a file depends on *)

(** C10, as stated, fails: [5.txt] and [05.txt] have the same number
    and extension, and with offset 0 the first is skipped as identical
    while the second is renamed. *)
Lemma same_number_other_outcome :
  In bare_five (files_of (sample_world [("5.txt", plain "a")])) /\
  In padded_five (files_of (sample_world [("05.txt", plain "a")])) /\
  number bare_five = number padded_five /\
  extension bare_five = extension padded_five /\
  decide 0 0 bare_five = do_skip_identical /\
  decide 0 0 padded_five = do_rename "5.txt" /\
  In (skip_identical "5.txt")
     (output (run insertion_sorter 0 0 (sample_world [("5.txt", plain "a")]))) /\
  In (renamed "05.txt" "5.txt")
     (output (run insertion_sorter 0 0 (sample_world [("05.txt", plain "a")]))).
Proof.
  repeat split; try reflexivity; vm_compute; tauto.
Qed.

(** C10 (amended): the decision for a matched file and the name built
    for it depend on the file's own name and on the offset and the
    minimum only, whatever else is in the directory.  The number and
    the extension alone settle the name built and the first two skip
    rules; the identical-name skip also looks at how the digit run is
    written. *)
Theorem decision_depends_on_own_name a b :
  (forall w1 w2 fi1 fi2,
     In fi1 (files_of w1) -> In fi2 (files_of w2) ->
     filename (original_path fi1) = filename (original_path fi2) ->
     number fi1 = number fi2 /\ extension fi1 = extension fi2 /\
     decide a b fi1 = decide a b fi2) /\
  (forall fi1 fi2,
     number fi1 = number fi2 -> extension fi1 = extension fi2 ->
     new_name a fi1 = new_name a fi2 /\
     (decide a b fi1 = do_skip_below_b <->
      decide a b fi2 = do_skip_below_b) /\
     (forall k, decide a b fi1 = do_skip_negative k <->
                decide a b fi2 = do_skip_negative k) /\
     (forall new1 new2, decide a b fi1 = do_rename new1 ->
                        decide a b fi2 = do_rename new2 -> new1 = new2)).
Proof.
  split.
  - intros w1 w2 fi1 fi2 H1 H2 Hname.
    apply files_of_matched in H1 as (_ & d1 & _ & _ & Hm1 & Hs1 & _).
    apply files_of_matched in H2 as (_ & d2 & _ & _ & Hm2 & Hs2 & _).
    rewrite Hname, Hm2 in Hm1. injection Hm1 as <- He.
    rewrite Hs2 in Hs1. injection Hs1 as Hn.
    split; [auto|]. split; [auto|].
    unfold decide. now rewrite Hname, Hn, He.
  - intros fi1 fi2 Hn He.
    assert (Hnew : new_name a fi1 = new_name a fi2)
      by (unfold new_name; now rewrite Hn, He).
    split; [exact Hnew|].
    destruct (decide_cases a b fi1)
      as [[A1 E1]|[(A1 & B1 & E1)|[(A1 & B1 & C1 & E1)|(A1 & B1 & C1 & E1)]]];
      destruct (decide_cases a b fi2)
      as [[A2 E2]|[(A2 & B2 & E2)|[(A2 & B2 & C2 & E2)|(A2 & B2 & C2 & E2)]]];
      rewrite E1, E2; rewrite Hn in *; try lia;
      (split;
       [ split; intros H; try discriminate H; congruence
       | split;
         [ intros k; split; intros H; try discriminate H; congruence
         | intros new1 new2 H H'; congruence ] ]).
Qed.

Lemma decision_depends_on_own_name_witness :
  number bare_five = number bare_five /\
  extension bare_five = extension bare_five /\
  decide 2 0 bare_five = decide 2 0 bare_five.
Proof.
  apply (proj1 (decision_depends_on_own_name 2 0)
           scenario_A (sample_world [("5.txt", plain "other")])
           bare_five bare_five).
  - left. reflexivity.
  - left. reflexivity.
  - reflexivity.
Defined.

(** * Further properties of the program *)

(** ** The comparators *)

(** Both comparators meet the requirement of [std::sort], and each is
    the other with its arguments exchanged.  The one orders by
    greater number and the other by smaller number, and by nothing
    else: two files are equivalent, neither before the other, exactly
    when they carry the same number. *)
Theorem comparators_strict_weak :
  strict_weak_order compareFilesDesc /\
  strict_weak_order compareFilesAsc /\
  (forall x y, compareFilesDesc x y = compareFilesAsc y x) /\
  (forall x y, compareFilesDesc x y = true <-> number x > number y) /\
  (forall x y, compareFilesAsc x y = true <-> number x < number y) /\
  (forall x y,
     compareFilesDesc x y = false /\ compareFilesDesc y x = false <->
     number x = number y) /\
  (forall x y,
     compareFilesAsc x y = false /\ compareFilesAsc y x = false <->
     number x = number y).
Proof.
  split; [apply compareFilesDesc_swo|].
  split; [apply compareFilesAsc_swo|].
  split; [reflexivity|].
  unfold compareFilesDesc, compareFilesAsc.
  split; [intros x y; rewrite Z.ltb_lt; lia|].
  split; [intros x y; rewrite Z.ltb_lt; lia|].
  split; intros x y; rewrite !Z.ltb_ge; lia.
Qed.

(** ** The filename pattern *)

Lemma is_digit_range c :
  is_digit c = true <-> (48 <= nat_of_ascii c <= 57)%nat.
Proof.
  unfold is_digit. rewrite andb_true_iff, !Nat.leb_le. tauto.
Qed.

Lemma any_char_codes c :
  any_char c = true <->
  nat_of_ascii c <> 10%nat /\ nat_of_ascii c <> 13%nat.
Proof.
  assert (Hcode : forall k, (k < 256)%nat ->
            (c = ascii_of_nat k <-> nat_of_ascii c = k)).
  { intros k Hk. split.
    - intros ->. now apply nat_ascii_embedding.
    - intros <-. symmetry. apply ascii_nat_embedding. }
  unfold any_char, is_line_terminator.
  rewrite negb_true_iff, orb_false_iff.
  change "010"%char with (ascii_of_nat 10).
  change "013"%char with (ascii_of_nat 13).
  rewrite <- (Hcode 10%nat), <- (Hcode 13%nat) by lia.
  split; intros [H1 H2]; split;
    first [now apply Ascii.eqb_neq | now apply Ascii.eqb_neq in H1
          | now apply Ascii.eqb_neq in H2].
Qed.

Lemma append_empty_r s : s ++ "" = s.
Proof. induction s as [|c t IH]; simpl; congruence. Qed.

Section CharacterClass.

Variables (r0 : regex) (P : ascii -> bool).

Hypothesis class_inv :
  forall b s a caps, re_match r0 b s a caps ->
                     exists c, s = String c "" /\ P c = true /\ caps = [].
Hypothesis class_intro :
  forall b c a, P c = true -> re_match r0 b (String c "") a [].

Lemma plus_class_inv b s a caps :
  re_match (re_plus r0) b s a caps ->
  s <> EmptyString /\ string_forallb P s = true /\ caps = [].
Proof.
  intros H. remember (re_plus r0) as r eqn:Er.
  induction H as [| | | | |r b s a caps H _
                 |r b s1 s2 a caps1 caps2 H1 _ _ IH2| |];
    try discriminate Er; injection Er as ->.
  - destruct (class_inv _ _ _ _ H) as (c & -> & Hc & ->).
    simpl. rewrite Hc. repeat split; discriminate.
  - destruct (class_inv _ _ _ _ H1) as (c & -> & Hc & _).
    destruct (IH2 eq_refl) as (_ & Hs2 & ->).
    simpl. rewrite Hc, Hs2. repeat split; discriminate.
Qed.

Lemma plus_class_intro s :
  s <> EmptyString -> string_forallb P s = true ->
  forall b a, re_match (re_plus r0) b s a [].
Proof.
  induction s as [|c t IH]; [congruence|]. simpl.
  intros _ H b a. apply andb_prop in H as [Hc Ht].
  destruct t as [|c' t'].
  - apply match_plus_last. now apply class_intro.
  - apply (match_plus_more r0 b (String c "") (String c' t') a [] []).
    + now apply class_intro.
    + apply IH; [discriminate|exact Ht].
Qed.

End CharacterClass.

Lemma digit_class_inv b s a caps :
  re_match re_digit b s a caps ->
  exists c, s = String c "" /\ is_digit c = true /\ caps = [].
Proof.
  intros H. inversion H as [| |? c ? Hc| | | | | |]; subst.
  exists c. repeat split. now apply is_digit_range.
Qed.

Lemma any_class_inv b s a caps :
  re_match re_any b s a caps ->
  exists c, s = String c "" /\ any_char c = true /\ caps = [].
Proof.
  intros H. inversion H as [| | |? c ? H1 H2| | | | |]; subst.
  exists c. repeat split. now apply any_char_codes.
Qed.

(** The matcher agrees with the pattern: [filename_regex] matches a
    whole name, under the ECMAScript reading of its tokens, exactly
    when [regex_match] succeeds on it, and the captures of every
    match are the two groups [regex_match] returns.  The pattern
    matches a name in one way at most, so the order in which
    [std::regex_match] tries the alternatives does not matter, and
    the extension is all that follows the first dot. *)
Theorem filename_pattern name caps :
  re_match filename_regex "" name "" caps <->
  exists digits ext,
    caps = [digits; ext] /\ regex_match name = Some (digits, ext).
Proof.
  unfold filename_regex. split.
  - intros H.
    inversion H as [| | | | | | | |? ? ? ? s1 ? c0 c1 Hbol H1]; subst.
    inversion Hbol; subst. clear H Hbol.
    inversion H1 as [| | | | | | | |? ? ? d s2 ? cd c2 Hd H2]; subst.
    clear H1.
    inversion Hd as [| | | | | | |? ? ? ? cd' Hd'|]; subst. clear Hd.
    apply (plus_class_inv re_digit is_digit digit_class_inv) in Hd'
      as (Hdne & Hdig & ->).
    inversion H2 as [| | | | | | | |? ? ? dot s3 ? cdot c3 Hdot H3]; subst.
    clear H2.
    inversion Hdot; subst. clear Hdot.
    inversion H3 as [| | | | | | | |? ? ? e s4 ? ce c4 He H4]; subst.
    clear H3.
    inversion He as [| | | | | | |? ? ? ? ce' He'|]; subst. clear He.
    apply (plus_class_inv re_any any_char any_class_inv) in He'
      as (Hene & Hany & ->).
    inversion H4; subst. clear H4.
    exists d, e. split; [reflexivity|].
    rewrite append_empty_r. simpl append.
    now apply (regex_match_intro d e (conj Hdne Hdig) Hene Hany).
  - intros (d & e & -> & Hm).
    apply regex_match_inv in Hm as (-> & [Hdne Hdig] & Hene & Hany).
    assert (Hdigits : forall b a, re_match (re_plus re_digit) b d a []).
    { apply (plus_class_intro re_digit is_digit); auto.
      intros b c a Hc. apply match_digit. now apply is_digit_range. }
    assert (Hext : forall b a, re_match (re_plus re_any) b e a []).
    { apply (plus_class_intro re_any any_char); auto.
      intros b c a Hc. apply any_char_codes in Hc as [H1 H2].
      now apply match_any. }
    assert (H3 : forall b,
              re_match (re_seq (re_group (re_plus re_any)) re_eol)
                       b e "" [e]).
    { intros b.
      pose proof (match_seq (re_group (re_plus re_any)) re_eol
                    b e "" "" [e] []
                    (match_group _ _ _ _ _ (Hext b _))
                    (match_eol _)) as H.
      now rewrite append_empty_r in H. }
    apply (match_seq re_bol _ "" "" (d ++ "." ++ e) "" [] [d; e]).
    { apply match_bol. }
    apply (match_seq (re_group (re_plus re_digit)) _
             _ d ("." ++ e) "" [d] [e]).
    { apply match_group, Hdigits. }
    apply (match_seq (re_char ".") _ _ "." e "" [] [e]).
    { apply match_char. }
    apply H3.
Qed.

(** ** The scan *)

(** The [invalid_argument] handler of the scan never runs: the first
    capture group always starts with a digit.  No run prints its
    warning. *)
Theorem invalid_argument_unreachable S stdin w :
  Forall (fun m => forall name, m <> warn_not_converted name)
         (output (main S stdin w)).
Proof.
  apply Forall_forall. intros m Hin name ->. revert Hin.
  assert (Hscan : forall cwd es,
             ~ In (warn_not_converted name) (snd (scan cwd es))).
  { intros cwd es. induction es as [|[k nd] t IH]; [intros []|].
    rewrite scan_cons. cbn [snd]. rewrite in_app_iff. intros [H|H]; auto.
    unfold scan_entry in H.
    destruct (is_regular_file nd); [|destruct H].
    destruct (regex_match k) as [[digits ext]|] eqn:Hm; [|destruct H].
    apply regex_match_inv in Hm as (_ & [Hne Hd] & _).
    unfold stoi in H. destruct digits as [|c ds]; [congruence|].
    destruct (digits_uint_of_string _ Hd) as [u Hu]. rewrite Hu in H.
    destruct (_ <=? _); simpl in H; intuition discriminate. }
  intros Hin.
  destruct (main_output S stdin w _ Hin)
    as [E|[E|(a & b & _ & _ & _ & _ & Hrun)]]; try discriminate E.
  rewrite Hrun in Hin. clear Hrun.
  destruct (scan_fault w) as [k|] eqn:Hf.
  { rewrite (run_fault S a b w k Hf) in Hin. cbn [output] in Hin.
    destruct Hin as [E|Hin]; [discriminate E|].
    apply in_app_or in Hin as [Hin|[E|[]]];
      [now apply Hscan in Hin|discriminate E]. }
  assert (Hcase : files_of w = [] \/ files_of w <> [])
    by (destruct (files_of w); [left; reflexivity|right; discriminate]).
  destruct Hcase as [He|Hne].
  { rewrite (run_empty S a b w Hf He) in Hin. cbn [output] in Hin.
    destruct Hin as [E|Hin]; [discriminate E|].
    apply in_app_or in Hin as [Hin|[E|[]]];
      [now apply Hscan in Hin|discriminate E]. }
  rewrite (run_pass S a b w Hf Hne) in Hin. cbn [output] in Hin.
  destruct Hin as [E|Hin]; [discriminate E|].
  apply in_app_or in Hin as [Hin|[E|Hin]]; [now apply Hscan in Hin| |].
  - destruct (0 <=? a); discriminate E.
  - apply in_app_or in Hin as [Hin|[E|[]]]; [|discriminate E].
    destruct (Forall2_In_r _ _ _ _
                (rename_pass_reports w a b _ (entries w)) Hin)
      as (fi & _ & Hr).
    unfold reports in Hr.
    destruct (decide a b fi); try discriminate Hr.
    destruct Hr; discriminate.
Qed.

(** ** The exit status *)

(** The program ends in one of three ways.  It is aborted through
    [std::terminate] exactly when both integers are read and
    [fs::current_path()] throws; otherwise it exits with 1 or 0, and
    with 0 exactly when both integers are read and the enumeration of
    the directory does not throw: skipped files, warnings and failed
    renames do not change the status. *)
Theorem exit_status S stdin cwd_throws w :
  (program S stdin cwd_throws w = terminated <->
   cwd_throws = true /\
   exists a b rest rest',
     istream_int stdin = (Some a, rest) /\
     istream_int rest = (Some b, rest')) /\
  (forall o, program S stdin cwd_throws w = exited o ->
     o = main S stdin w /\
     (exit_code o = 0 \/ exit_code o = 1) /\
     (exit_code o = 0 <->
      cwd_throws = false /\
      scan_fault w = None /\
      exists a b rest rest',
        istream_int stdin = (Some a, rest) /\
        istream_int rest = (Some b, rest'))).
Proof.
  assert (Hrun : forall a b,
             (scan_fault w = None -> exit_code (run S a b w) = 0) /\
             (scan_fault w <> None -> exit_code (run S a b w) = 1)).
  { intros a b. split.
    - intros Hf. now apply run_reports_all.
    - intros Hf. destruct (scan_fault w) as [k|] eqn:E; [|congruence].
      now rewrite (run_fault S a b w k E). }
  unfold program, main.
  destruct (istream_int stdin) as [[a|] rest] eqn:Ea.
  - destruct (istream_int rest) as [[b|] rest'] eqn:Eb.
    + destruct cwd_throws.
      * split; [|discriminate].
        split; [|reflexivity]. intros _. split; [reflexivity|].
        exists a, b, rest, rest'. auto.
      * split; [split; [discriminate|intros [E _]; discriminate E]|].
        intros o [= <-]. split; [reflexivity|].
        destruct (Hrun a b) as [H0 H1].
        destruct (scan_fault w) as [k|] eqn:Hf.
        -- rewrite H1 by discriminate. split; [now right|].
           split; [discriminate|]. intros (_ & E & _). discriminate E.
        -- rewrite H0 by reflexivity. split; [now left|].
           split; [|reflexivity]. intros _.
           split; [reflexivity|]. split; [reflexivity|].
           exists a, b, rest, rest'. auto.
    + split.
      * split; [discriminate|].
        intros (_ & a' & b' & r & r' & E1 & E2).
        injection E1 as <- <-. rewrite Eb in E2. discriminate E2.
      * intros o [= <-]. cbn. split; [reflexivity|]. split; [now right|].
        split; [discriminate|].
        intros (_ & _ & a' & b' & r & r' & E1 & E2).
        injection E1 as <- <-. rewrite Eb in E2. discriminate E2.
  - split.
    + split; [discriminate|].
      intros (_ & a' & b' & r & r' & E1 & _). discriminate E1.
    + intros o [= <-]. cbn. split; [reflexivity|]. split; [now right|].
      split; [discriminate|].
      intros (_ & _ & a' & b' & r & r' & E1 & _). discriminate E1.
Qed.

Lemma exit_status_witness :
  exit_code (main insertion_sorter "2 0" scenario_A) = 0 \/
  exit_code (main insertion_sorter "2 0" scenario_A) = 1.
Proof.
  destruct (exit_status insertion_sorter "2 0" false scenario_A) as [_ H].
  destruct (H (main insertion_sorter "2 0" scenario_A) eq_refl)
    as (_ & Hcode & _).
  exact Hcode.
Defined.

(** The abort: both integers are read, then [fs::current_path()]
    throws. *)
Example no_current_directory :
  program insertion_sorter "2 0" true scenario_A = terminated.
Proof. reflexivity. Qed.

(** ** What the scan collects *)

Lemma scan_entry_accepted cwd e :
  (accepted e = true /\
   exists fi, scan_entry cwd e = ([fi], []) /\ name_of fi = fst e /\
              number_of_name (fst e) = Some (number fi)) \/
  (accepted e = false /\ fst (scan_entry cwd e) = []).
Proof.
  destruct e as [name nd]. unfold accepted, scan_entry, number_of_name.
  cbn [fst snd].
  destruct (is_regular_file nd); [|now right].
  destruct (regex_match name) as [[digits ext]|]; [|now right].
  destruct (stoi digits) as [n| |]; [|now right|now right].
  left. split; [reflexivity|]. eexists. split; [reflexivity|]. now split.
Qed.

Lemma scan_names cwd es :
  map name_of (fst (scan cwd es)) = map fst (filter accepted es).
Proof.
  induction es as [|e t IH]; [reflexivity|].
  rewrite scan_cons. cbn [fst filter]. rewrite map_app, IH.
  destruct (scan_entry_accepted cwd e) as [[-> (fi & -> & Hn & _)]|[-> ->]].
  - simpl. now rewrite Hn.
  - reflexivity.
Qed.

Lemma NoDup_map_filter {A B : Type} (f : A -> B) (p : A -> bool) l :
  NoDup (map f l) -> NoDup (map f (filter p l)).
Proof.
  induction l as [|x t IH]; simpl; intros H; [constructor|].
  inversion H as [|? ? Hnotin Hnd]; subst.
  destruct (p x); simpl; [|now apply IH].
  constructor; [|now apply IH].
  intros Hin. apply Hnotin.
  apply in_map_iff in Hin as (y & Hy & Hin).
  apply filter_In in Hin as [Hin _].
  apply in_map_iff. eauto.
Qed.

Lemma scan_names_NoDup cwd es :
  NoDup (map fst es) -> NoDup (map name_of (fst (scan cwd es))).
Proof. intros H. rewrite scan_names. now apply NoDup_map_filter. Qed.


(** The scan collects, in the order of the directory, one file for
    each regular entry whose name fits the pattern with a digit run
    that fits in an [int], and nothing else: directories and other
    entries are left out whatever their name.  The number of a
    collected file is a non-negative [int], its extension is not
    empty, and distinct entries give files of distinct names. *)
Theorem scan_exact cwd es :
  (forall fi, In fi (fst (scan cwd es)) <-> matched cwd es fi) /\
  (forall fi, In fi (fst (scan cwd es)) ->
              0 <= number fi <= INT_MAX /\ extension fi <> EmptyString /\
              parent_path (original_path fi) = cwd) /\
  map name_of (fst (scan cwd es)) = map fst (filter accepted es) /\
  (NoDup (map fst es) -> NoDup (map name_of (fst (scan cwd es)))).
Proof.
  split; [intros fi; apply scan_In|].
  split; [|split; [apply scan_names|apply scan_names_NoDup]].
  intros fi Hfi. apply scan_In in Hfi.
  split; [now apply matched_number in Hfi|].
  destruct Hfi as (_ & digits & _ & _ & Hm & _ & Hp).
  now apply regex_match_inv in Hm as (_ & _ & He & _).
Qed.

Lemma scan_exact_witness :
  NoDup (map name_of (fst (scan "/work" (entries scenario_C)))).
Proof.
  apply (scan_exact "/work" (entries scenario_C)).
  repeat constructor; simpl; intuition discriminate.
Defined.

(** ** The sources of the renames *)

(** [fs::rename] is only ever called on a regular file of the
    directory whose name fits the pattern, with a target name that
    differs from the source; a directory named like [5.txt] or a file
    of another shape is never a source. *)
Theorem rename_sources_are_matched S a b w m old new :
  In m (output (run S a b w)) -> rename_call m old new ->
  scan_fault w = None /\
  old <> new /\
  exists nd, In (old, nd) (entries w) /\ accepted (old, nd) = true.
Proof.
  intros Hin Hc.
  assert (Hf : scan_fault w = None).
  { destruct (scan_fault w) as [k|] eqn:Hf; [|reflexivity].
    exfalso. rewrite (run_fault S a b w k Hf) in Hin. cbn [output] in Hin.
    destruct Hin as [<-|Hin]; [destruct Hc; discriminate|].
    apply in_app_or in Hin as [Hin|[<-|[]]];
      [|destruct Hc; discriminate].
    pose proof (scan_quiet (current_path w) (firstn k (entries w))) as Hq.
    rewrite Forall_forall in Hq. exact (Hq m Hin old new Hc). }
  destruct (run_rename_call S a b w m old new Hin Hc) as (fi & Hfi & <- & Hd).
  apply decide_rename_inv in Hd as (_ & _ & _ & Hneq).
  apply files_of_matched in Hfi.
  pose proof (matched_number_of_name _ _ _ Hfi) as Hn.
  destruct Hfi as (nd & _ & Hnd & Hreg & _).
  split; [exact Hf|]. split; [exact Hneq|].
  exists nd. split; [exact Hnd|].
  unfold accepted. cbn [fst snd]. now rewrite Hreg, Hn.
Qed.

Lemma rename_sources_are_matched_witness :
  scan_fault scenario_A = None /\
  "5.txt" <> "7.txt" /\
  exists nd, In ("5.txt", nd) (entries scenario_A) /\
             accepted ("5.txt", nd) = true.
Proof.
  apply (rename_sources_are_matched insertion_sorter 2 0 scenario_A
           (renamed "5.txt" "7.txt")).
  - vm_compute. tauto.
  - left. reflexivity.
Defined.

(** ** Runs that rename nothing *)

(** When every file of the scan is below the minimum or would get a
    negative number, the run calls [fs::rename] for no file and
    leaves the directory as it is. *)
Theorem nothing_to_rename S a b w :
  in_int a ->
  (forall fi, In fi (files_of w) -> number fi < b \/ number fi + a < 0) ->
  final (run S a b w) = entries w /\ Forall quiet (output (run S a b w)).
Proof.
  intros Ha Hall. apply run_all_skip. intros fi new Hfi Hd.
  apply decide_rename_inv in Hd as (Hb & H0 & _).
  pose proof (proj1 (files_of_matched w fi) Hfi) as Hm.
  apply matched_number in Hm.
  destruct (Hall fi Hfi) as [H|H]; [lia|].
  rewrite (int_add_negative _ _ Hm Ha H) in H0. lia.
Qed.

Lemma nothing_to_rename_witness :
  final (run insertion_sorter (-10) 6 scenario_C) = entries scenario_C /\
  Forall quiet (output (run insertion_sorter (-10) 6 scenario_C)).
Proof.
  apply (nothing_to_rename insertion_sorter (-10) 6 scenario_C).
  - unfold in_int, INT_MIN, INT_MAX. lia.
  - intros fi [<-|[<-|[<-|[]]]]; simpl; lia.
Defined.

(** ** Shifting back *)

(** A file written without leading zeros that is renamed with offset
    [a] is, under its new name, a file of the next scan, and a run
    with offset [- a] whose minimum it passes computes its first name
    again. *)
Theorem shift_back cwd es a b b' fi new nd :
  matched cwd es fi -> in_int a ->
  canonical_name (name_of fi) = true ->
  decide a b fi = do_rename new ->
  b' <= number fi + a ->
  is_regular_file nd = true ->
  exists fi',
    scan_entry cwd (new, nd) = ([fi'], []) /\
    number fi' = number fi + a /\
    extension fi' = extension fi /\
    decide (- a) b' fi' = do_rename (name_of fi).
Proof.
  intros Hm Ha Hcanon Hd Hb' Hreg.
  pose proof (matched_number _ _ _ Hm) as Hn.
  apply decide_rename_inv in Hd as (_ & H0 & -> & Hneq).
  pose proof (int_add_nonneg _ _ Hn Ha H0) as E.
  pose proof (int_add_in_int (number fi) a) as [_ Hmax].
  destruct Hm as (_ & digits & _ & _ & Hmatch & Hs & _).
  destruct (regex_match_inv _ _ _ Hmatch) as (Hname & _ & He & Hany).
  unfold new_name in *. rewrite E in *.
  destruct (new_name_matches (number fi + a) (extension fi)
              (conj H0 Hmax) He Hany) as [Hm' Hs'].
  eexists. split; [unfold scan_entry; now rewrite Hreg, Hm', Hs'|].
  split; [reflexivity|]. split; [reflexivity|].
  assert (Eback : int_add (number fi + a) (- a) = number fi).
  { rewrite int_add_exact; [lia|].
    unfold in_int, INT_MIN, INT_MAX in *. lia. }
  assert (Eold : name_of fi = to_string (number fi) ++ "." ++ extension fi).
  { unfold name_of, canonical_name in *. rewrite Hmatch in Hcanon.
    apply (to_string_stoi _ _ Hs) in Hcanon. now rewrite Hcanon. }
  destruct (decide_cases (- a) b'
              {| number := number fi + a;
                 original_path := path_append cwd
                   (to_string (number fi + a) ++ "." ++ extension fi);
                 extension := extension fi |})
    as [[H _]|[(_ & H & _)|[(_ & _ & H & _)|(_ & _ & _ & H)]]];
    cbn [number extension original_path filename path_append] in *;
    unfold new_name in *;
    cbn [number extension original_path filename path_append] in *;
    rewrite ?Eback in *.
  - lia.
  - lia.
  - exfalso. apply Hneq. unfold name_of in Eold. congruence.
  - rewrite H. now rewrite Eold.
Qed.

Lemma shift_back_witness :
  exists fi',
    scan_entry "/work" ("7.txt", plain "five") = ([fi'], []) /\
    number fi' = number bare_five + 2 /\
    extension fi' = extension bare_five /\
    decide (- (2)) 0 fi' = do_rename (name_of bare_five).
Proof.
  apply (shift_back "/work" (entries scenario_A) 2 0 0 bare_five
           "7.txt" (plain "five")).
  - exists (plain "five"), "5". simpl. intuition.
  - unfold in_int, INT_MIN, INT_MAX. lia.
  - reflexivity.
  - reflexivity.
  - simpl. lia.
  - reflexivity.
Defined.

(** ** Targets and the files still to come *)

Lemma to_string_negative n :
  n < 0 -> exists t, to_string n = String "-" t.
Proof.
  destruct n as [|p|p]; intros H; try lia.
  exists (NilEmpty.string_of_uint (Pos.to_uint p)). reflexivity.
Qed.

Lemma regex_match_minus t : regex_match (String "-" t) = None.
Proof. reflexivity. Qed.

(** When the name built for [fi] is the name of a file of a scan,
    that file carries the number of [fi] plus the offset, and the
    extension of [fi]. *)
Lemma new_name_is_name cwd es cwd' es' a fi fj :
  matched cwd es fi -> matched cwd' es' fj -> in_int a ->
  new_name a fi = name_of fj ->
  number fj = number fi + a /\ extension fj = extension fi.
Proof.
  intros Hi Hj Ha E.
  pose proof (matched_number _ _ _ Hi) as Hn.
  destruct Hi as (_ & di & _ & _ & Hmi & _ & _).
  destruct Hj as (_ & dj & _ & _ & Hmj & Hsj & _).
  destruct (regex_match_inv _ _ _ Hmi) as (_ & _ & He & Hany).
  unfold name_of in E. rewrite <- E in Hmj. unfold new_name in Hmj.
  destruct (Z.lt_ge_cases (int_add (number fi) a) 0) as [Hneg|Hpos].
  - destruct (to_string_negative _ Hneg) as [t Ht].
    rewrite Ht in Hmj. simpl in Hmj. discriminate Hmj.
  - pose proof (int_add_in_int (number fi) a) as [_ Hmax].
    destruct (new_name_matches _ (extension fi) (conj Hpos Hmax) He Hany)
      as [Hm Hs].
    rewrite Hm in Hmj. injection Hmj as <- <-.
    rewrite Hs in Hsj. injection Hsj as <-.
    split; [now apply int_add_nonneg|reflexivity].
Qed.

Lemma StronglySorted_split {A : Type} (R : A -> A -> Prop) l1 x l2 :
  StronglySorted R (l1 ++ x :: l2)%list -> Forall (R x) l2.
Proof.
  induction l1 as [|y t IH]; simpl; intros H;
    inversion H as [|? ? Hs Hall]; subst; auto.
Qed.

(** In the order of the sort and with an offset that is not 0, the
    name built for a file is not the name of a file that comes later. *)
Lemma target_not_pending S a w l1 fi l2 fj :
  a <> 0 -> in_int a ->
  sort_files S a (files_of w) = (l1 ++ fi :: l2)%list -> In fj l2 ->
  new_name a fi <> name_of fj.
Proof.
  intros Ha0 Ha Hsplit Hfj E.
  assert (Hin : forall f, In f (l1 ++ fi :: l2)%list ->
                          matched (current_path w) (entries w) f).
  { intros f Hf. apply files_of_matched.
    eapply Permutation_in; [apply Permutation_sym, (sort_files_perm S a)|].
    now rewrite Hsplit. }
  assert (Hi : matched (current_path w) (entries w) fi)
    by (apply Hin, in_or_app; right; now left).
  assert (Hj : matched (current_path w) (entries w) fj)
    by (apply Hin, in_or_app; right; now right).
  destruct (new_name_is_name _ _ _ _ a fi fj Hi Hj Ha E) as [Hn _].
  destruct (Z.lt_ge_cases a 0) as [Hneg|Hpos].
  - pose proof (sort_files_ascending S a (files_of w) Hneg) as Hs.
    rewrite Hsplit in Hs. apply StronglySorted_split in Hs.
    rewrite Forall_forall in Hs. specialize (Hs fj Hfj). simpl in Hs. lia.
  - pose proof (sort_files_descending S a (files_of w) Hpos) as Hs.
    rewrite Hsplit in Hs. apply StronglySorted_split in Hs.
    rewrite Forall_forall in Hs. specialize (Hs fj Hfj). simpl in Hs. lia.
Qed.

(** The order of the renames does what it is for: when the offset is
    not 0, the target of a rename is never the name of a matched file
    that is still to be processed, nor the name of its own source. *)
Theorem target_avoids_pending S a b w l1 fi l2 :
  a <> 0 -> in_int a ->
  sort_files S a (files_of w) = (l1 ++ fi :: l2)%list ->
  new_name a fi <> name_of fi /\
  (forall fj, In fj l2 -> new_name a fi <> name_of fj) /\
  (forall new, decide a b fi = do_rename new ->
               forall fj, In fj (fi :: l2) -> new <> name_of fj).
Proof.
  intros Ha0 Ha Hsplit.
  assert (Hi : matched (current_path w) (entries w) fi).
  { apply files_of_matched.
    eapply Permutation_in; [apply Permutation_sym, (sort_files_perm S a)|].
    rewrite Hsplit. apply in_or_app; right; now left. }
  assert (Hself : new_name a fi <> name_of fi).
  { intros E.
    destruct (new_name_is_name _ _ _ _ a fi fi Hi Hi Ha E) as [Hn _]. lia. }
  assert (Hlater : forall fj, In fj l2 -> new_name a fi <> name_of fj)
    by (intros fj Hfj; now apply (target_not_pending S a w l1 fi l2 fj)).
  split; [exact Hself|]. split; [exact Hlater|].
  intros new Hd fj [<-|Hfj];
    apply decide_rename_inv in Hd as (_ & _ & -> & _); auto.
Qed.

Lemma target_avoids_pending_witness :
  new_name 2 {| number := 7; original_path := path_append "/work" "7.txt";
                extension := "txt" |} <> name_of bare_five.
Proof.
  refine (proj1 (proj2 (target_avoids_pending insertion_sorter 2 0 scenario_A
            [] {| number := 7; original_path := path_append "/work" "7.txt";
                  extension := "txt" |} [bare_five] _ _ _)) bare_five _).
  - lia.
  - unfold in_int, INT_MIN, INT_MAX. lia.
  - reflexivity.
  - left. reflexivity.
Defined.

(** ** A run without collisions *)

Lemma NoDup_fst_eq (d : dirmap) k n n' :
  NoDup (map fst d) -> In (k, n) d -> In (k, n') d -> n = n'.
Proof.
  induction d as [|[k0 n0] t IH]; simpl; intros Hnd H1 H2; [tauto|].
  inversion Hnd as [|? ? Hnotin Hnd']; subst.
  assert (Hk : forall m, In (k0, m) t -> False)
    by (intros m Hm; apply Hnotin, in_map_iff; exists (k0, m); auto).
  destruct H1 as [E1|H1], H2 as [E2|H2].
  - congruence.
  - injection E1 as <- <-. now apply Hk in H2.
  - injection E2 as <- <-. now apply Hk in H1.
  - now apply IH.
Qed.

Lemma fs_rename_fresh w d p q :
  parent_path p = current_path w -> parent_path q = current_path w ->
  In (filename p) (map fst d) -> ~ In (filename q) (map fst d) ->
  rename_denied w (filename p) (filename q) = false ->
  fs_rename w d p q = Some (relabel (filename p) (filename q) d).
Proof.
  intros Hp Hq Hold Hnew Hden. unfold fs_rename.
  rewrite Hp, Hq, String.eqb_refl. cbn [andb negb].
  destruct (lookup (filename p) d) as [n|] eqn:El.
  - rewrite Hden.
    destruct (String.eqb_spec (filename p) (filename q)) as [E|_];
      [now rewrite E in Hold|].
    apply lookup_None in Hnew. now rewrite Hnew.
  - now apply lookup_None in El.
Qed.

Lemma scan_entry_incl cwd es e :
  In e es -> incl (fst (scan_entry cwd e)) (fst (scan cwd es)).
Proof.
  induction es as [|e' t IH]; intros Hin fi Hfi; [destruct Hin|].
  rewrite scan_cons. cbn [fst]. apply in_or_app.
  destruct Hin as [->|Hin]; [now left|right; now apply IH].
Qed.

Section CleanShift.

Variables (w : world) (a b : Z) (T : list FileInfo).

Hypothesis T_matched :
  forall fi, In fi T <-> matched (current_path w) (entries w) fi.
Hypothesis T_decide :
  forall fi, In fi T -> decide a b fi = do_rename (new_name a fi).
Hypothesis T_names : NoDup (map name_of T).
Hypothesis T_targets :
  forall fi fj, In fi T -> In fj T ->
                new_name a fi = new_name a fj -> fi = fj.
Hypothesis T_pending :
  forall l1 fi l2 fj, T = (l1 ++ fi :: l2)%list -> In fj l2 ->
                      new_name a fi <> name_of fj.
Hypothesis T_closed :
  forall fi nd, In fi T -> In (new_name a fi, nd) (entries w) ->
                exists fj, In fj T /\ name_of fj = new_name a fi.
Hypothesis names_NoDup : NoDup (map fst (entries w)).
Hypothesis never_denied : forall old new, rename_denied w old new = false.

Lemma entry_of_file fi n :
  In fi T -> In (name_of fi, n) (entries w) ->
  scan_entry (current_path w) (name_of fi, n) = ([fi], []).
Proof.
  intros Hfi Hin. apply T_matched in Hfi.
  destruct Hfi as (nd & digits & Hnd & Hreg & Hm & Hs & Hp).
  assert (n = nd) by (eapply NoDup_fst_eq; eauto). subst n.
  unfold scan_entry, name_of. rewrite Hreg, Hm, Hs.
  destruct fi as [k [p f] e]. simpl in *. now subst.
Qed.

Lemma existsb_names k (P : list FileInfo) :
  existsb (String.eqb k) (map name_of P) = true <->
  exists fj, In fj P /\ name_of fj = k.
Proof.
  rewrite existsb_exists. split.
  - intros (x & Hx & E). apply String.eqb_eq in E. subst x.
    apply in_map_iff in Hx as (fj & E & Hfj). eauto.
  - intros (fj & Hfj & <-). exists (name_of fj).
    split; [now apply in_map|apply String.eqb_refl].
Qed.

Lemma name_not_done P fi R :
  T = (P ++ fi :: R)%list ->
  existsb (String.eqb (name_of fi)) (map name_of P) = false.
Proof.
  intros HT.
  destruct (existsb _ _) eqn:E; [|reflexivity].
  apply existsb_names in E as (fj & Hfj & Hname).
  rewrite HT, map_app in T_names.
  apply NoDup_remove_2 in T_names. exfalso. apply T_names.
  apply in_or_app. left. rewrite <- Hname. now apply in_map.
Qed.

Lemma In_T P fi R f :
  T = (P ++ fi :: R)%list -> In f P \/ f = fi \/ In f R -> In f T.
Proof.
  intros -> H. apply in_or_app. simpl. intuition.
Qed.

Lemma step_shift P fi R :
  T = (P ++ fi :: R)%list ->
  relabel (name_of fi) (new_name a fi)
    (map (shift_done (current_path w) a (map name_of P)) (entries w)) =
  map (shift_done (current_path w) a (map name_of (P ++ [fi])%list))
    (entries w).
Proof.
  intros HT. unfold relabel. rewrite map_map.
  apply map_ext_in. intros [k n] Hin.
  unfold shift_done. cbn [fst].
  rewrite map_app, existsb_app. cbn [map existsb].
  destruct (existsb (String.eqb k) (map name_of P)) eqn:Edone; cbn [orb].
  - apply existsb_names in Edone as (fj & Hfj & <-).
    assert (HfjT : In fj T) by (eapply In_T; eauto).
    unfold shift_entry.
    rewrite (entry_of_file fj n HfjT Hin). cbn [fst snd].
    destruct (String.eqb_spec (new_name a fj) (name_of fi)) as [E|_];
      [|reflexivity].
    exfalso. apply in_split in Hfj as (P1 & P2 & ->).
    apply (T_pending P1 fj (P2 ++ fi :: R)%list fi); auto.
    + rewrite HT, <- List.app_assoc. reflexivity.
    + apply in_or_app. right. now left.
  - cbn [fst].
    destruct (String.eqb_spec k (name_of fi)) as [->|_]; cbn [orb snd].
    + assert (HfiT : In fi T) by (eapply In_T; eauto).
      unfold shift_entry. now rewrite (entry_of_file fi n HfiT Hin).
    + reflexivity.
Qed.

Lemma source_present P fi R :
  T = (P ++ fi :: R)%list ->
  In (name_of fi)
     (map fst (map (shift_done (current_path w) a (map name_of P))
                   (entries w))).
Proof.
  intros HT.
  assert (HfiT : In fi T) by (eapply In_T; eauto).
  destruct (proj1 (T_matched fi) HfiT) as (nd & _ & Hnd & _).
  apply in_map_iff. exists (name_of fi, nd). split; [reflexivity|].
  apply in_map_iff. exists (name_of fi, nd). split; [|exact Hnd].
  unfold shift_done. cbn [fst]. now rewrite (name_not_done P fi R HT).
Qed.

Lemma target_absent P fi R :
  T = (P ++ fi :: R)%list ->
  ~ In (new_name a fi)
       (map fst (map (shift_done (current_path w) a (map name_of P))
                     (entries w))).
Proof.
  intros HT Hin.
  assert (HfiT : In fi T) by (eapply In_T; eauto).
  pose proof (name_not_done P fi R HT) as Hfresh.
  pose proof (T_decide fi HfiT) as Hd.
  apply decide_rename_inv in Hd as (_ & _ & _ & Hself).
  apply in_map_iff in Hin as (e' & Hfst & Hin).
  apply in_map_iff in Hin as ([k n] & <- & Hin).
  unfold shift_done in Hfst. cbn [fst] in Hfst.
  destruct (existsb (String.eqb k) (map name_of P)) eqn:Edone.
  - apply existsb_names in Edone as (fj & Hfj & <-).
    assert (HfjT : In fj T) by (eapply In_T; eauto).
    unfold shift_entry in Hfst.
    rewrite (entry_of_file fj n HfjT Hin) in Hfst. cbn [fst] in Hfst.
    assert (fj = fi) by (apply T_targets; auto). subst fj.
    assert (E : existsb (String.eqb (name_of fi)) (map name_of P) = true)
      by (apply existsb_names; eauto).
    congruence.
  - cbn [fst] in Hfst. subst k.
    destruct (T_closed fi n HfiT Hin) as (fk & HfkT & Hname).
    rewrite HT in HfkT. apply in_app_or in HfkT as [Hk|[<-|Hk]].
    + assert (E : existsb (String.eqb (new_name a fi)) (map name_of P) = true)
        by (apply existsb_names; eauto).
      congruence.
    + apply Hself. exact Hname.
    + apply (T_pending P fi R fk HT Hk). now symmetry.
Qed.

Lemma pass_clean R :
  forall P, T = (P ++ R)%list ->
    rename_pass w a b
      (map (shift_done (current_path w) a (map name_of P)) (entries w)) R =
    (map (shift_done (current_path w) a (map name_of T)) (entries w),
     map (fun fi => renamed (name_of fi) (new_name a fi)) R).
Proof.
  induction R as [|fi R IH]; intros P HT.
  - rewrite List.app_nil_r in HT. now subst P.
  - assert (HfiT : In fi T) by (eapply In_T; eauto).
    rewrite rename_pass_cons.
    assert (Hstep : rename_file w a b
              (map (shift_done (current_path w) a (map name_of P)) (entries w))
              fi =
            (map (shift_done (current_path w) a (map name_of (P ++ [fi])%list))
                 (entries w),
             renamed (name_of fi) (new_name a fi))).
    { unfold rename_file. rewrite (T_decide fi HfiT).
      destruct (proj1 (T_matched fi) HfiT) as (_ & _ & _ & _ & _ & _ & Hp).
      rewrite fs_rename_fresh; auto.
      - cbn [filename path_append]. fold (name_of fi).
        now rewrite (step_shift P fi R HT).
      - apply (source_present P fi R HT).
      - apply (target_absent P fi R HT). }
    rewrite Hstep. cbn [fst snd].
    rewrite (IH (P ++ [fi])%list)
      by (rewrite <- List.app_assoc; exact HT).
    reflexivity.
Qed.

Lemma shift_all :
  map (shift_done (current_path w) a (map name_of T)) (entries w) =
  map (shift_entry (current_path w) a) (entries w).
Proof.
  apply map_ext_in. intros [k n] Hin. unfold shift_done. cbn [fst].
  destruct (existsb (String.eqb k) (map name_of T)) eqn:E; [reflexivity|].
  unfold shift_entry.
  destruct (scan_entry_accepted (current_path w) (k, n))
    as [[_ (fi & Hs & Hname & _)]|[_ ->]]; [|reflexivity].
  exfalso.
  assert (HfiT : In fi T).
  { apply T_matched, scan_In.
    apply (scan_entry_incl _ _ _ Hin). rewrite Hs. now left. }
  assert (E' : existsb (String.eqb k) (map name_of T) = true)
    by (apply existsb_names; eauto).
  congruence.
Qed.

End CleanShift.

Lemma new_name_inj cwd es a fi fj :
  matched cwd es fi -> matched cwd es fj ->
  0 <= number fi + a <= INT_MAX -> 0 <= number fj + a <= INT_MAX ->
  new_name a fi = new_name a fj ->
  number fi = number fj /\ extension fi = extension fj.
Proof.
  intros Hi Hj Ri Rj E.
  assert (Hshape : forall f, matched cwd es f ->
            0 <= number f + a <= INT_MAX ->
            regex_match (new_name a f)
              = Some (to_string (number f + a), extension f) /\
            stoi (to_string (number f + a)) = stoi_ok (number f + a)).
  { intros f (_ & d & _ & _ & Hm & _ & _) Hr.
    destruct (regex_match_inv _ _ _ Hm) as (_ & _ & He & Hany).
    unfold new_name. rewrite int_add_exact.
    - now apply new_name_matches.
    - unfold in_int, INT_MIN, INT_MAX in *. lia. }
  destruct (Hshape fi Hi Ri) as [Hmi Hsi], (Hshape fj Hj Rj) as [Hmj Hsj].
  rewrite E, Hmj in Hmi. injection Hmi as Hd He.
  rewrite Hd, Hsi in Hsj. injection Hsj as Hn.
  split; [lia|congruence].
Qed.

(** The rename pass of a run in which nothing stands in the way. *)
Lemma pass_of_clean S a b w :
  in_int a -> a <> 0 ->
  NoDup (map fst (entries w)) ->
  (forall old new, rename_denied w old new = false) ->
  (forall fi, In fi (files_of w) ->
              b <= number fi /\ 0 <= number fi + a <= INT_MAX) ->
  (forall fi fj, In fi (files_of w) -> In fj (files_of w) ->
                 number fi = number fj -> extension fi = extension fj ->
                 fi = fj) ->
  (forall fi nd, In fi (files_of w) -> In (new_name a fi, nd) (entries w) ->
                 is_regular_file nd = true) ->
  pass_of S a b w =
  (map (shift_entry (current_path w) a) (entries w),
   map (fun fi => renamed (name_of fi) (new_name a fi))
       (sort_files S a (files_of w))).
Proof.
  intros Ha Ha0 Hnd Hden Hpass Hdistinct Hreg.
  set (T := sort_files S a (files_of w)).
  assert (HT : forall fi, In fi T <-> In fi (files_of w)).
  { intros fi. unfold T. split; intros H.
    - eapply Permutation_in;
        [apply Permutation_sym, sort_files_perm|exact H].
    - eapply Permutation_in; [apply sort_files_perm|exact H]. }
  assert (T_matched : forall fi,
            In fi T <-> matched (current_path w) (entries w) fi)
    by (intros fi; rewrite HT; apply files_of_matched).
  assert (T_decide : forall fi, In fi T ->
            decide a b fi = do_rename (new_name a fi)).
  { intros fi Hfi. pose proof (proj1 (T_matched fi) Hfi) as Hm.
    apply HT in Hfi. destruct (Hpass fi Hfi) as [Hb Hr].
    assert (E : int_add (number fi) a = number fi + a).
    { apply int_add_exact. unfold in_int, INT_MIN, INT_MAX in *. lia. }
    destruct (decide_cases a b fi)
      as [[H _]|[(_ & H & _)|[(_ & _ & H & _)|(_ & _ & _ & H)]]].
    - lia.
    - rewrite E in H. lia.
    - exfalso. symmetry in H.
      destruct (new_name_is_name _ _ _ _ a fi fi Hm Hm Ha H) as [Hn _]. lia.
    - exact H. }
  assert (T_names : NoDup (map name_of T)).
  { eapply Permutation_NoDup;
      [apply Permutation_map, sort_files_perm|].
    now apply scan_names_NoDup. }
  assert (T_targets : forall fi fj, In fi T -> In fj T ->
            new_name a fi = new_name a fj -> fi = fj).
  { intros fi fj Hi Hj E.
    pose proof (proj1 (T_matched fi) Hi) as Hmi.
    pose proof (proj1 (T_matched fj) Hj) as Hmj.
    apply HT in Hi, Hj.
    destruct (new_name_inj _ _ a fi fj Hmi Hmj
                (proj2 (Hpass fi Hi)) (proj2 (Hpass fj Hj)) E) as [Hn He].
    now apply Hdistinct. }
  assert (T_pending : forall l1 fi l2 fj, T = (l1 ++ fi :: l2)%list ->
            In fj l2 -> new_name a fi <> name_of fj)
    by (intros l1 fi l2 fj; now apply target_not_pending).
  assert (T_closed : forall fi nd, In fi T ->
            In (new_name a fi, nd) (entries w) ->
            exists fj, In fj T /\ name_of fj = new_name a fi).
  { intros fi nd Hfi Hin.
    pose proof (proj1 (T_matched fi) Hfi) as (_ & d & _ & _ & Hm & _ & _).
    apply HT in Hfi. pose proof (Hreg fi nd Hfi Hin) as Hr.
    destruct (Hpass fi Hfi) as [_ Hrange].
    destruct (regex_match_inv _ _ _ Hm) as (_ & _ & He & Hany).
    destruct (new_name_matches _ (extension fi) Hrange He Hany) as [Hm' Hs'].
    assert (E : new_name a fi
                = to_string (number fi + a) ++ "." ++ extension fi).
    { unfold new_name. rewrite int_add_exact; [reflexivity|].
      unfold in_int, INT_MIN, INT_MAX in *. lia. }
    eexists. split.
    - apply T_matched, scan_In, (scan_entry_incl _ _ _ Hin).
      unfold scan_entry. rewrite Hr, E, Hm', Hs'. left. reflexivity.
    - unfold name_of. cbn. now rewrite E. }
  pose proof (pass_clean w a b T T_matched T_decide T_names T_targets
                T_pending T_closed Hnd Hden T [] eq_refl) as Hclean.
  rewrite (shift_all w a T T_matched) in Hclean.
  assert (Hstart : map (shift_done (current_path w) a (map name_of []))
                       (entries w) = entries w).
  { rewrite <- (map_id (entries w)) at 2. apply map_ext. now intros [k n]. }
  rewrite Hstart in Hclean.
  change (rename_pass w a b (entries w) T) with (pass_of S a b w) in Hclean.
  exact Hclean.
Qed.

(** Without a fault of the enumeration the directory after a run is
    the directory after its rename pass. *)
Lemma run_final_pass S a b w :
  scan_fault w = None -> final (run S a b w) = fst (pass_of S a b w).
Proof.
  intros Hf.
  assert (Hcase : files_of w = [] \/ files_of w <> [])
    by (destruct (files_of w); [left; reflexivity|right; discriminate]).
  destruct Hcase as [He|Hne].
  - rewrite (run_empty S a b w Hf He). cbn [final]. unfold pass_of.
    assert (ET : sort_files S a (files_of w) = []).
    { apply Permutation_nil. rewrite <- He at 1. apply sort_files_perm. }
    now rewrite ET.
  - now rewrite (run_pass S a b w Hf Hne).
Qed.

(** When nothing stands in the way, a run shifts the whole directory:
    with an offset that is not 0, no refused rename, every matched
    file at or above the minimum with a new number that is an [int]
    and not negative, no two matched files with the same number and
    extension, and only regular files at the target names, every
    rename succeeds and the directory afterwards is the directory
    before with each matched entry under its new name.  No entry is
    replaced and no contents are lost. *)
Theorem clean_shift S a b w :
  scan_fault w = None -> in_int a -> a <> 0 ->
  NoDup (map fst (entries w)) ->
  (forall old new, rename_denied w old new = false) ->
  (forall fi, In fi (files_of w) ->
              b <= number fi /\ 0 <= number fi + a <= INT_MAX) ->
  (forall fi fj, In fi (files_of w) -> In fj (files_of w) ->
                 number fi = number fj -> extension fi = extension fj ->
                 fi = fj) ->
  (forall fi nd, In fi (files_of w) -> In (new_name a fi, nd) (entries w) ->
                 is_regular_file nd = true) ->
  final (run S a b w) = map (shift_entry (current_path w) a) (entries w) /\
  snd (pass_of S a b w) =
    map (fun fi => renamed (name_of fi) (new_name a fi))
        (sort_files S a (files_of w)).
Proof.
  intros Hf Ha Ha0 Hnd Hden Hpass Hdistinct Hreg.
  pose proof (pass_of_clean S a b w Ha Ha0 Hnd Hden Hpass Hdistinct Hreg)
    as Hclean.
  rewrite (run_final_pass S a b w Hf), Hclean.
  split; reflexivity.
Qed.

Lemma clean_shift_witness :
  final (run insertion_sorter 2 0 scenario_A) =
    map (shift_entry (current_path scenario_A) 2) (entries scenario_A) /\
  snd (pass_of insertion_sorter 2 0 scenario_A) =
    map (fun fi => renamed (name_of fi) (new_name 2 fi))
        (sort_files insertion_sorter 2 (files_of scenario_A)).
Proof.
  apply (clean_shift insertion_sorter 2 0 scenario_A).
  - reflexivity.
  - unfold in_int, INT_MIN, INT_MAX. lia.
  - lia.
  - repeat constructor; simpl; intuition discriminate.
  - reflexivity.
  - intros fi [<-|[<-|[]]]; simpl; unfold INT_MAX; lia.
  - intros fi fj [<-|[<-|[]]] [<-|[<-|[]]]; simpl; intros;
      try reflexivity; lia.
  - intros fi nd [<-|[<-|[]]] Hin; vm_compute in Hin;
      repeat (destruct Hin as [Hin|Hin];
              [try discriminate Hin; now injection Hin as <-|]);
      destruct Hin.
Defined.

(** ** There and back *)

Section ThereAndBack.

Variables (w : world) (a : Z).

Hypothesis a_int : in_int a.
Hypothesis names_NoDup : NoDup (map fst (entries w)).
Hypothesis in_range :
  forall fi, In fi (files_of w) -> 0 <= number fi + a <= INT_MAX.
Hypothesis canonical :
  forall fi, In fi (files_of w) -> canonical_name (name_of fi) = true.
Hypothesis distinct :
  forall fi fj, In fi (files_of w) -> In fj (files_of w) ->
                number fi = number fj -> extension fi = extension fj ->
                fi = fj.
Hypothesis targets_regular :
  forall fi nd, In fi (files_of w) -> In (new_name a fi, nd) (entries w) ->
                is_regular_file nd = true.









End ThereAndBack.



(** ** The warnings of the scan *)

(** The scan prints a warning for exactly the regular files whose
    name fits the pattern with a digit run above [INT_MAX]; entries
    of another type and names that do not fit are passed over in
    silence, and a file with a warning is not among the files of the
    scan. *)
Theorem scan_warnings_exact cwd es name :
  (In (warn_out_of_range name) (snd (scan cwd es)) <->
   exists nd digits ext,
     In (name, nd) es /\ is_regular_file nd = true /\
     regex_match name = Some (digits, ext) /\
     stoi digits = stoi_out_of_range) /\
  (In (warn_out_of_range name) (snd (scan cwd es)) ->
   forall fi, In fi (fst (scan cwd es)) -> name_of fi <> name).
Proof.
  assert (Hiff : In (warn_out_of_range name) (snd (scan cwd es)) <->
            exists nd digits ext,
              In (name, nd) es /\ is_regular_file nd = true /\
              regex_match name = Some (digits, ext) /\
              stoi digits = stoi_out_of_range).
  { split.
    - induction es as [|[k nd] t IH]; [intros []|].
      rewrite scan_cons. cbn [snd]. rewrite in_app_iff. intros [H|H].
      + unfold scan_entry in H.
        destruct (is_regular_file nd) eqn:Hr; [|destruct H].
        destruct (regex_match k) as [[digits ext]|] eqn:Hm; [|destruct H].
        destruct (stoi digits) eqn:Hs; simpl in H;
          [destruct H
          |destruct H as [H|[]]; discriminate H
          |destruct H as [H|[]]].
        injection H as ->. exists nd, digits, ext. simpl. auto.
      + destruct (IH H) as (nd' & digits & ext & Hin & Hrest).
        exists nd', digits, ext. simpl. auto.
    - intros (nd & digits & ext & Hin & Hr & Hm & Hs).
      now apply scan_In_messages with nd digits ext. }
  split; [exact Hiff|].
  intros Hw fi Hfi E.
  apply Hiff in Hw as (_ & digits & ext & _ & _ & Hm & Hs).
  apply scan_In in Hfi as (_ & d' & _ & _ & Hm' & Hs' & _).
  unfold name_of in E. rewrite E, Hm in Hm'. injection Hm' as <- _.
  congruence.
Qed.

Lemma scan_warnings_exact_witness :
  exists nd digits ext,
    In ("99999999999.txt", nd) (entries overflow_world) /\
    is_regular_file nd = true /\
    regex_match "99999999999.txt" = Some (digits, ext) /\
    stoi digits = stoi_out_of_range.
Proof.
  apply (proj1 (proj1 (scan_warnings_exact "/work" (entries overflow_world)
                         "99999999999.txt"))).
  vm_compute. tauto.
Defined.
